(** * Image partial-update tracking (image_gpu_partial_update.cc)

    A shallow embedding of the changeset-based dirty-region tracker:
    the chunk grid, [TileChangeset], [Changeset],
    [PartialUpdateRegisterImpl], [PartialUpdateUserImpl] and the
    [BKE_image_partial_update_*] entry points, followed by the properties
    of the specification checked against that code.

    Conventions of the embedding.
    - C++ [int] and [int64_t] values are integers in [Z].  Signed overflow
      is undefined in the source, so no wrap-around exists to model: the
      development describes the runs in which pixel coordinates, chunk
      counts and changeset ids stay inside their machine ranges.
    - [int / int] is C++ division, which truncates towards zero: [Z.quot].
    - [std::vector<bool>] and [blender::Vector] are lists; a store through
      [operator[]] is stdpp's list insert.  [operator[]] is unchecked in the
      source (out of range is undefined); the model reads [false] and stores
      nothing there, and the bounds lemmas ([on_grid_index],
      [mark_region_in_bounds], [merge_in_bounds]) show the indices the code
      uses are in range for well-formed states.
    - Objects mutated through pointers are passed and returned explicitly. *)

From Stdlib Require Import ZArith Lia.
From stdpp Require Import base numbers list list_numbers.

Local Open Scope Z_scope.

(** ** Helpers from blenlib that the file uses *)

Module BLI.

(** Modelled from the spec: [min_ii] and [max_ii] are declared in blenlib's
    BLI_math_base, outside the sources at hand; the specification uses them
    to "clamp to [0, chunk_x_len-1] x [0, chunk_y_len-1]": the smaller and
    the larger of two integers. *)
Definition min_ii (a b : Z) : Z := Z.min a b.
Definition max_ii (a b : Z) : Z := Z.max a b.

(** [rcti]: integer rectangle, fields in declaration order. *)
Record rcti : Type := Build_rcti {
  xmin : Z;
  xmax : Z;
  ymin : Z;
  ymax : Z;
}.

(** Modelled from the spec: [BLI_rcti_init] lives in blenlib's rct.c, which
    is not part of the sources at hand.  The specification says each
    returned rectangle "spans exactly one chunk's pixel extent"; the call
    site passes [xmin, xmax, ymin, ymax] in that order, already ordered, so
    the initialiser stores the four bounds as given. *)
Definition BLI_rcti_init (xmin xmax ymin ymax : Z) : rcti :=
  Build_rcti xmin xmax ymin ymax.

End BLI.

Import BLI.

#[global] Instance rcti_eq_dec : EqDecision rcti.
Proof. solve_decision. Defined.

(** ** Identifiers and enumerations *)

Definition TileNumber := Z.
Definition ChangesetID := Z.
Definition UnknownChangesetID : ChangesetID := -1.

Inductive ePartialUpdateCollectResult : Type :=
  | PARTIAL_UPDATE_NEED_FULL_UPDATE
  | PARTIAL_UPDATE_NO_CHANGES
  | PARTIAL_UPDATE_CHANGES_AVAILABLE.

Inductive ePartialUpdateIterResult : Type :=
  | PARTIAL_UPDATE_ITER_FINISHED
  | PARTIAL_UPDATE_ITER_CHANGE_AVAILABLE.

Record PartialUpdateRegion : Type := Build_PartialUpdateRegion {
  tile_number : TileNumber;
  region : rcti;
}.

#[global] Instance PartialUpdateRegion_eq_dec : EqDecision PartialUpdateRegion.
Proof. solve_decision. Defined.

(** ** Bit vector access *)

(** Read of [flags[index]]. *)
Definition flag_get (flags : list bool) (index : Z) : bool :=
  if decide (0 ≤ index) then default false (flags !! Z.to_nat index) else false.

(** Store [flags[index] = b]. *)
Definition flag_set (flags : list bool) (index : Z) (b : bool) : list bool :=
  if decide (0 ≤ index) then <[Z.to_nat index := b]> flags else flags.

(** ** TileChangeset *)

Record TileChangeset : Type := Build_TileChangeset {
  chunk_dirty_flags_ : list bool;
  has_dirty_chunks_ : bool;
  chunk_x_len_ : Z;
  chunk_y_len_ : Z;
}.

Module TileChangeset.

Definition has_dirty_chunks (self : TileChangeset) : bool :=
  has_dirty_chunks_ self.

(** [resize] grows the vector with [false] entries or truncates it.  Grid
    lengths are never negative for image sizes that are not (see
    [register_wf]), so the length handed to [resize] is a natural number. *)
Definition init_chunks (self : TileChangeset) (chunk_x_len chunk_y_len : Z)
  : TileChangeset :=
  let chunk_len := chunk_x_len * chunk_y_len in
  let previous_chunk_len := Z.of_nat (length (chunk_dirty_flags_ self)) in
  let flags := resize (Z.to_nat chunk_len) false (chunk_dirty_flags_ self) in
  if negb (has_dirty_chunks self) then
    (* fast exit *)
    Build_TileChangeset flags (has_dirty_chunks_ self) chunk_x_len chunk_y_len
  else
    let flags :=
      foldl (fun fl index => flag_set fl index false) flags
            (seqZ 0 (min_ii chunk_len previous_chunk_len)) in
    Build_TileChangeset flags false chunk_x_len chunk_y_len.

Definition reset (self : TileChangeset) : TileChangeset :=
  init_chunks self (chunk_x_len_ self) (chunk_y_len_ self).

(** The two nested [for] loops run over the inclusive chunk ranges; an
    empty range runs no iteration, and the summary flag is set after the
    loops whatever they did. *)
Definition mark_chunks_dirty (self : TileChangeset)
    (start_x_chunk start_y_chunk end_x_chunk end_y_chunk : Z) : TileChangeset :=
  let flags :=
    foldl (fun fl chunk_y =>
             foldl (fun fl chunk_x =>
                      let chunk_index := chunk_y * chunk_x_len_ self + chunk_x in
                      flag_set fl chunk_index true)
                   fl (seqZ start_x_chunk (end_x_chunk - start_x_chunk + 1)))
          (chunk_dirty_flags_ self)
          (seqZ start_y_chunk (end_y_chunk - start_y_chunk + 1)) in
  Build_TileChangeset flags true (chunk_x_len_ self) (chunk_y_len_ self).

(** [merge]: the two [BLI_assert]s on equal grid dimensions are debug-only
    checks and change no state.  When a changeset is merged with itself
    [other] aliases the receiver; step [chunk_index] reads only entry
    [chunk_index], which no earlier step has written, so reading [other]
    from the value on entry gives the same result. *)
Definition merge (self other : TileChangeset) : TileChangeset :=
  let chunk_len := chunk_x_len_ self * chunk_y_len_ self in
  let flags :=
    foldl (fun fl chunk_index =>
             flag_set fl chunk_index
               (flag_get fl chunk_index
                || flag_get (chunk_dirty_flags_ other) chunk_index))
          (chunk_dirty_flags_ self) (seqZ 0 chunk_len) in
  Build_TileChangeset flags
    (has_dirty_chunks_ self || has_dirty_chunks_ other)
    (chunk_x_len_ self) (chunk_y_len_ self).

Definition is_chunk_dirty (self : TileChangeset) (chunk_x chunk_y : Z) : bool :=
  let chunk_index := chunk_y * chunk_x_len_ self + chunk_x in
  flag_get (chunk_dirty_flags_ self) chunk_index.

(** A value-initialised changeset, as [std::make_unique<TileChangeset>()]
    and the value-initialised register give it: no flags, zero lengths. *)
Definition empty : TileChangeset := Build_TileChangeset [] false 0 0.

(** State left behind by [std::move]: the flag vector has been taken (it is
    empty), the scalar members are copied and keep their values. *)
Definition moved_from (self : TileChangeset) : TileChangeset :=
  Build_TileChangeset [] (has_dirty_chunks_ self)
    (chunk_x_len_ self) (chunk_y_len_ self).

End TileChangeset.

Record Changeset : Type := Build_Changeset {
  tile_changeset : TileChangeset;
}.

(** ** PartialUpdateUserImpl *)

Record PartialUpdateUserImpl : Type := Build_PartialUpdateUserImpl {
  user_last_changeset_id : ChangesetID;
  updated_regions : list PartialUpdateRegion;
}.

Module PartialUpdateUserImpl.

(** The object [BKE_image_partial_update_create] allocates: the default
    member initialiser gives the unknown id, the vector starts empty. *)
Definition new : PartialUpdateUserImpl :=
  Build_PartialUpdateUserImpl UnknownChangesetID [].

Definition clear_updated_regions (self : PartialUpdateUserImpl)
  : PartialUpdateUserImpl :=
  Build_PartialUpdateUserImpl (user_last_changeset_id self) [].

End PartialUpdateUserImpl.

(** ** PartialUpdateRegisterImpl *)

Record ImBuf : Type := Build_ImBuf {
  x : Z;
  y : Z;
}.

Record PartialUpdateRegisterImpl : Type := Build_PartialUpdateRegisterImpl {
  first_changeset_id : ChangesetID;
  last_changeset_id : ChangesetID;
  history : list Changeset;
  current_changeset : Changeset;
  image_width : Z;
  image_height : Z;
}.

Module PartialUpdateRegisterImpl.

Definition CHUNK_SIZE : Z := 256.

(** Modelled from the spec: the macro [OBJECT_GUARDED_NEW] is declared in
    MEM_guardedalloc.h, outside the sources at hand.  The specification
    creates the register "lazily on first mark/collect call"; the macro is a
    placement [new] with an empty initialiser and the struct has no
    user-provided constructor, so the object is value-initialised: ids and
    sizes are zero, history and flag vector empty. *)
Definition new : PartialUpdateRegisterImpl :=
  Build_PartialUpdateRegisterImpl 0 0 [] (Build_Changeset TileChangeset.empty) 0 0.

Definition mark_full_update (self : PartialUpdateRegisterImpl)
  : PartialUpdateRegisterImpl :=
  let last := last_changeset_id self + 1 in
  Build_PartialUpdateRegisterImpl
    last last []
    (Build_Changeset (TileChangeset.reset (tile_changeset (current_changeset self))))
    (image_width self) (image_height self).

Definition update_resolution (self : PartialUpdateRegisterImpl) (image_buffer : ImBuf)
  : PartialUpdateRegisterImpl :=
  if decide (image_width self ≠ x image_buffer ∨ image_height self ≠ y image_buffer)
  then
    let image_width := x image_buffer in
    let image_height := y image_buffer in
    let chunk_x_len := Z.quot image_width CHUNK_SIZE in
    let chunk_y_len := Z.quot image_height CHUNK_SIZE in
    let self :=
      Build_PartialUpdateRegisterImpl
        (first_changeset_id self) (last_changeset_id self) (history self)
        (Build_Changeset
           (TileChangeset.init_chunks (tile_changeset (current_changeset self))
              chunk_x_len chunk_y_len))
        image_width image_height in
    (* Only perform a full update when the cache contains data. *)
    if TileChangeset.has_dirty_chunks (tile_changeset (current_changeset self))
       || negb (bool_decide (history self = []))
    then mark_full_update self
    else self
  else self.

Definition chunk_number_for_pixel (pixel_offset : Z) : Z :=
  let chunk_offset := Z.quot pixel_offset CHUNK_SIZE in
  if decide (pixel_offset < 0) then chunk_offset - 1 else chunk_offset.

Definition with_current (self : PartialUpdateRegisterImpl) (tc : TileChangeset)
  : PartialUpdateRegisterImpl :=
  Build_PartialUpdateRegisterImpl
    (first_changeset_id self) (last_changeset_id self) (history self)
    (Build_Changeset tc) (image_width self) (image_height self).

Definition mark_region (self : PartialUpdateRegisterImpl) (updated_region : rcti)
  : PartialUpdateRegisterImpl :=
  let tc := tile_changeset (current_changeset self) in
  let start_x_chunk := chunk_number_for_pixel (xmin updated_region) in
  let end_x_chunk := chunk_number_for_pixel (xmax updated_region - 1) in
  let start_y_chunk := chunk_number_for_pixel (ymin updated_region) in
  let end_y_chunk := chunk_number_for_pixel (ymax updated_region - 1) in
  (* Clamp tiles to tiles in image. *)
  let start_x_chunk := max_ii 0 start_x_chunk in
  let start_y_chunk := max_ii 0 start_y_chunk in
  let end_x_chunk := min_ii (chunk_x_len_ tc - 1) end_x_chunk in
  let end_y_chunk := min_ii (chunk_y_len_ tc - 1) end_y_chunk in
  (* Early exit when no tiles need to be updated. *)
  if decide (start_x_chunk >= chunk_x_len_ tc) then self
  else if decide (start_y_chunk >= chunk_y_len_ tc) then self
  else if decide (end_x_chunk < 0) then self
  else if decide (end_y_chunk < 0) then self
  else
    with_current self
      (TileChangeset.mark_chunks_dirty tc
         start_x_chunk start_y_chunk end_x_chunk end_y_chunk).

(** [history.append_as(std::move(current_changeset))] moves the flag vector
    into the history; [reset] then runs on the moved-from object. *)
Definition commit_current_changeset (self : PartialUpdateRegisterImpl)
  : PartialUpdateRegisterImpl :=
  Build_PartialUpdateRegisterImpl
    (first_changeset_id self)
    (last_changeset_id self + 1)
    (history self ++ [current_changeset self])
    (Build_Changeset
       (TileChangeset.reset
          (TileChangeset.moved_from (tile_changeset (current_changeset self)))))
    (image_width self) (image_height self).

Definition ensure_empty_changeset (self : PartialUpdateRegisterImpl)
  : PartialUpdateRegisterImpl :=
  if negb (TileChangeset.has_dirty_chunks (tile_changeset (current_changeset self)))
  then self
  else commit_current_changeset self.

Definition can_construct (self : PartialUpdateRegisterImpl) (changeset_id : ChangesetID)
  : bool :=
  bool_decide (changeset_id >= first_changeset_id self).

(** The loop visits [history[index]] for [index] from
    [from_changeset - first_changeset_id] up to the end of the history, in
    order: the suffix of the history from that index.  The tile number is
    unused by the source. *)
Definition changed_tile_chunks_since (self : PartialUpdateRegisterImpl)
    (tile_number : TileNumber) (from_changeset : ChangesetID) : TileChangeset :=
  let chunk_x_len := Z.quot (image_width self) CHUNK_SIZE in
  let chunk_y_len := Z.quot (image_height self) CHUNK_SIZE in
  let changed_tiles := TileChangeset.init_chunks TileChangeset.empty chunk_x_len chunk_y_len in
  foldl (fun changed_tiles cs => TileChangeset.merge changed_tiles (tile_changeset cs))
        changed_tiles
        (drop (Z.to_nat (from_changeset - first_changeset_id self)) (history self)).

End PartialUpdateRegisterImpl.

(** ** The image and the C entry points *)

Module ImageTile.
Record t : Type := Build_t {
  tile_number : TileNumber;
}.
End ImageTile.

(** The part of [Image] the file reads and writes: the list of tiles and
    [runtime.partial_update_register], a nullable owning pointer. *)
Record Image : Type := Build_Image {
  tiles : list ImageTile.t;
  partial_update_register : option PartialUpdateRegisterImpl;
}.

(** Returns the register of the image, creating it on first use, together
    with the image that now holds it. *)
Definition image_partial_update_register_ensure (image : Image)
  : PartialUpdateRegisterImpl * Image :=
  match partial_update_register image with
  | None =>
      (PartialUpdateRegisterImpl.new,
       Build_Image (tiles image) (Some PartialUpdateRegisterImpl.new))
  | Some partial_update_register => (partial_update_register, image)
  end.

(** Write back the register mutated through the pointer. *)
Definition store_register (image : Image) (r : PartialUpdateRegisterImpl) : Image :=
  Build_Image (tiles image) (Some r).

Definition BKE_image_partial_update_create (image : Image) : PartialUpdateUserImpl :=
  PartialUpdateUserImpl.new.

(** [updated_regions.append_as(region)]. *)
Definition append_region (user_impl : PartialUpdateUserImpl) (r : PartialUpdateRegion)
  : PartialUpdateUserImpl :=
  Build_PartialUpdateUserImpl (user_last_changeset_id user_impl)
    (updated_regions user_impl ++ [r]).

(** Body of the [LISTBASE_FOREACH] loop of
    [BKE_image_partial_update_collect_changes] for one tile. *)
Definition collect_changes_of_tile (partial_updater : PartialUpdateRegisterImpl)
    (user_impl : PartialUpdateUserImpl) (tile : ImageTile.t) : PartialUpdateUserImpl :=
  let CHUNK_SIZE := PartialUpdateRegisterImpl.CHUNK_SIZE in
  let changed_chunks :=
    PartialUpdateRegisterImpl.changed_tile_chunks_since partial_updater
      (ImageTile.tile_number tile) (user_last_changeset_id user_impl) in
  (* Check if chunks of this tile are dirty. *)
  if negb (TileChangeset.has_dirty_chunks changed_chunks) then user_impl
  else
    (* Convert tiles in the changeset to rectangles that are dirty. *)
    foldl (fun user_impl chunk_y =>
             foldl (fun user_impl chunk_x =>
                      if negb (TileChangeset.is_chunk_dirty changed_chunks chunk_x chunk_y)
                      then user_impl
                      else
                        let region :=
                          Build_PartialUpdateRegion (ImageTile.tile_number tile)
                            (BLI_rcti_init
                               (chunk_x * CHUNK_SIZE) ((chunk_x + 1) * CHUNK_SIZE)
                               (chunk_y * CHUNK_SIZE) ((chunk_y + 1) * CHUNK_SIZE)) in
                        append_region user_impl region)
                   user_impl (seqZ 0 (chunk_x_len_ changed_chunks)))
          user_impl (seqZ 0 (chunk_y_len_ changed_chunks)).

Definition set_last_changeset_id (user_impl : PartialUpdateUserImpl) (id : ChangesetID)
  : PartialUpdateUserImpl :=
  Build_PartialUpdateUserImpl id (updated_regions user_impl).

Definition BKE_image_partial_update_collect_changes (image : Image)
    (user_impl : PartialUpdateUserImpl)
  : ePartialUpdateCollectResult * Image * PartialUpdateUserImpl :=
  let user_impl := PartialUpdateUserImpl.clear_updated_regions user_impl in
  let '(partial_updater, image) := image_partial_update_register_ensure image in
  let partial_updater := PartialUpdateRegisterImpl.ensure_empty_changeset partial_updater in
  let image := store_register image partial_updater in
  if negb (PartialUpdateRegisterImpl.can_construct partial_updater
             (user_last_changeset_id user_impl))
  then
    (PARTIAL_UPDATE_NEED_FULL_UPDATE, image,
     set_last_changeset_id user_impl (last_changeset_id partial_updater))
  else
    (* Check if there are changes since last invocation for the user. *)
    if bool_decide (user_last_changeset_id user_impl = last_changeset_id partial_updater)
    then (PARTIAL_UPDATE_NO_CHANGES, image, user_impl)
    else
      (* Collect changed tiles.  The cursor id is assigned after the loop,
         so every tile is queried with the id the call started with. *)
      let collected :=
        foldl (collect_changes_of_tile partial_updater) user_impl (tiles image) in
      (PARTIAL_UPDATE_CHANGES_AVAILABLE, image,
       set_last_changeset_id collected (last_changeset_id partial_updater)).

(** [r_region] is written only when a change is available. *)
Definition BKE_image_partial_update_get_next_change (user_impl : PartialUpdateUserImpl)
  : ePartialUpdateIterResult * option PartialUpdateRegion * PartialUpdateUserImpl :=
  match last (updated_regions user_impl) with
  | None => (PARTIAL_UPDATE_ITER_FINISHED, None, user_impl)
  | Some region =>
      (PARTIAL_UPDATE_ITER_CHANGE_AVAILABLE, Some region,
       Build_PartialUpdateUserImpl (user_last_changeset_id user_impl)
         (removelast (updated_regions user_impl)))
  end.

Definition BKE_image_partial_update_register_free (image : Image) : Image :=
  Build_Image (tiles image) None.

Definition BKE_image_partial_update_mark_region (image : Image) (image_buffer : ImBuf)
    (updated_region : rcti) : Image :=
  let '(partial_updater, image) := image_partial_update_register_ensure image in
  let partial_updater := PartialUpdateRegisterImpl.update_resolution partial_updater image_buffer in
  let partial_updater := PartialUpdateRegisterImpl.mark_region partial_updater updated_region in
  store_register image partial_updater.

Definition BKE_image_partial_update_mark_full_update (image : Image) : Image :=
  let '(partial_updater, image) := image_partial_update_register_ensure image in
  store_register image (PartialUpdateRegisterImpl.mark_full_update partial_updater).

(** * Properties *)

(** ** Reading and writing single flags *)

Section flags.
Implicit Types (fl : list bool) (i j : Z) (b : bool).

Lemma length_flag_set fl i b : length (flag_set fl i b) = length fl.
Proof. unfold flag_set. case_decide; [apply length_insert | done]. Qed.

Lemma flag_get_set_eq fl i b :
  0 ≤ i < Z.of_nat (length fl) → flag_get (flag_set fl i b) i = b.
Proof.
  intros [Hi Hlt]. unfold flag_get, flag_set.
  rewrite !decide_True by done.
  rewrite list_lookup_insert_eq by lia. done.
Qed.

Lemma flag_get_set_ne fl i j b :
  i ≠ j → flag_get (flag_set fl i b) j = flag_get fl j.
Proof.
  intros Hne. unfold flag_get, flag_set.
  destruct (decide (0 ≤ j)) as [Hj|]; [|done].
  destruct (decide (0 ≤ i)) as [Hi|]; [|done].
  rewrite list_lookup_insert_ne by lia. done.
Qed.

Lemma flag_get_out_of_range fl i :
  ¬ (0 ≤ i < Z.of_nat (length fl)) → flag_get fl i = false.
Proof.
  intros Hout. unfold flag_get. case_decide; [|done].
  rewrite lookup_ge_None_2 by lia. done.
Qed.

Lemma flag_set_same fl i : flag_set fl i (flag_get fl i) = fl.
Proof.
  unfold flag_set, flag_get. case_decide; [|done].
  destruct (fl !! Z.to_nat i) as [b|] eqn:Hl; simpl.
  - by apply list_insert_id.
  - apply list_insert_ge. by apply lookup_ge_None.
Qed.

(** A loop that stores the same value at every index of a list. *)
Lemma flag_get_foldl_set fl (l : list Z) b j :
  flag_get (foldl (λ fl i, flag_set fl i b) fl l) j =
  if decide (j ∈ l ∧ 0 ≤ j < Z.of_nat (length fl)) then b else flag_get fl j.
Proof.
  revert fl. induction l as [|i l IH]; intros fl; cbn [foldl].
  - rewrite decide_False; [done|]. intros [H _]. by apply elem_of_nil in H.
  - rewrite IH, length_flag_set.
    destruct (decide (j ∈ l ∧ 0 ≤ j < Z.of_nat (length fl))) as [[Hin Hr]|Hn].
    + rewrite decide_True; [done|]. split; [by right | done].
    + destruct (decide (i = j)) as [->|Hne].
      * destruct (decide (0 ≤ j < Z.of_nat (length fl))) as [Hr|Hr].
        -- rewrite flag_get_set_eq by done.
           rewrite decide_True; [done|]. split; [by left | done].
        -- rewrite decide_False by tauto.
           rewrite flag_get_out_of_range; [|by rewrite length_flag_set].
           by rewrite flag_get_out_of_range.
      * rewrite flag_get_set_ne by done.
        rewrite decide_False; [done|].
        intros [Hin Hr]. apply Hn. split; [|done].
        apply elem_of_cons in Hin as [->|]; [done | done].
Qed.

Lemma length_foldl_set fl (l : list Z) b :
  length (foldl (λ fl i, flag_set fl i b) fl l) = length fl.
Proof.
  revert fl. induction l as [|i l IH]; intros fl; simpl; [done|].
  by rewrite IH, length_flag_set.
Qed.

(** The pairwise or of [merge], for any list of indices. *)
Lemma length_foldl_or fl other (l : list Z) :
  length (foldl (λ fl i, flag_set fl i (flag_get fl i || flag_get other i)) fl l)
  = length fl.
Proof.
  revert fl. induction l as [|i l IH]; intros fl; simpl; [done|].
  by rewrite IH, length_flag_set.
Qed.

Lemma flag_get_foldl_or fl other (l : list Z) j :
  flag_get (foldl (λ fl i, flag_set fl i (flag_get fl i || flag_get other i)) fl l) j =
  if decide (j ∈ l ∧ 0 ≤ j < Z.of_nat (length fl))
  then flag_get fl j || flag_get other j else flag_get fl j.
Proof.
  revert fl. induction l as [|i l IH]; intros fl; cbn [foldl].
  - rewrite decide_False; [done|]. intros [H _]. by apply elem_of_nil in H.
  - rewrite IH, length_flag_set.
    destruct (decide (i = j)) as [->|Hne].
    + destruct (decide (0 ≤ j < Z.of_nat (length fl))) as [Hr|Hr].
      * rewrite flag_get_set_eq by done.
        rewrite (decide_True (P := j ∈ j :: l ∧ _)); [|split; [by left | done]].
        destruct (decide (j ∈ l ∧ 0 ≤ j < Z.of_nat (length fl))); [|done].
        by destruct (flag_get fl j), (flag_get other j).
      * rewrite !decide_False by tauto.
        rewrite flag_get_out_of_range; [|by rewrite length_flag_set].
        by rewrite flag_get_out_of_range.
    + rewrite flag_get_set_ne by done.
      destruct (decide (j ∈ l ∧ 0 ≤ j < Z.of_nat (length fl))) as [[Hin Hr]|Hn].
      * rewrite decide_True; [done|]. split; [by right | done].
      * rewrite decide_False; [done|].
        intros [Hin Hr]. apply Hn. split; [|done].
        apply elem_of_cons in Hin as [->|]; [done | done].
Qed.

(** A loop whose every step leaves the vector as it is. *)
Lemma foldl_fixed {A B} (f : A → B → A) (acc : A) (l : list B) :
  (∀ e, f acc e = acc) → foldl f acc l = acc.
Proof. intros Hf. induction l as [|e l IH]; simpl; [done|]. by rewrite Hf. Qed.

(** Two nested loops are one loop over the concatenated index lists. *)
Lemma foldl_nested {A B C} (f : A → C → A) (g : B → list C) (acc : A) (l : list B) :
  foldl (λ acc e, foldl f acc (g e)) acc l = foldl f acc (l ≫= g).
Proof.
  revert acc. induction l as [|e l IH]; intros acc; simpl; [done|].
  rewrite foldl_app. apply IH.
Qed.

Lemma foldl_fmap_arg {A B C} (f : A → C → A) (h : B → C) (acc : A) (l : list B) :
  foldl (λ acc e, f acc (h e)) acc l = foldl f acc (h <$> l).
Proof. revert acc. induction l as [|e l IH]; intros acc; simpl; [done|]. apply IH. Qed.
Lemma foldl_pointwise {A B} (f g : A → B → A) (acc : A) (l : list B) :
  (∀ acc e, f acc e = g acc e) → foldl f acc l = foldl g acc l.
Proof.
  intros Hfg. revert acc.
  induction l as [|e l IH]; intros acc; simpl; [done|]. by rewrite Hfg, IH.
Qed.
End flags.

(** ** Tile changesets *)

(** Data invariant of a tile changeset: the flag vector has one entry per
    chunk of the grid, and a changeset whose summary flag is off has no
    flag set.  (The converse direction is the subject of claim C2.) *)
Record tile_changeset_wf (tc : TileChangeset) : Prop := Build_tile_changeset_wf {
  wf_x_len : 0 ≤ chunk_x_len_ tc;
  wf_y_len : 0 ≤ chunk_y_len_ tc;
  wf_flags_len :
    Z.of_nat (length (chunk_dirty_flags_ tc)) = chunk_x_len_ tc * chunk_y_len_ tc;
  wf_summary :
    has_dirty_chunks_ tc = false →
    ∀ index, flag_get (chunk_dirty_flags_ tc) index = false;
}.

(** Some flag of the vector is set. *)
Definition some_chunk_dirty (tc : TileChangeset) : Prop :=
  ∃ index, flag_get (chunk_dirty_flags_ tc) index = true.

(** Chunk [(cx, cy)] lies on the grid of [tc]. *)
Definition on_grid (tc : TileChangeset) (cx cy : Z) : Prop :=
  0 ≤ cx < chunk_x_len_ tc ∧ 0 ≤ cy < chunk_y_len_ tc.

Lemma on_grid_index tc cx cy :
  tile_changeset_wf tc → on_grid tc cx cy →
  0 ≤ cy * chunk_x_len_ tc + cx < Z.of_nat (length (chunk_dirty_flags_ tc)).
Proof. intros Hwf [Hx Hy]. rewrite (wf_flags_len _ Hwf). nia. Qed.


Lemma flag_get_resize_false fl n index :
  (∀ i, flag_get fl i = false) → flag_get (resize n false fl) index = false.
Proof.
  intros Hfl. unfold flag_get. case_decide as Hi; [|done].
  destruct (decide (Z.to_nat index < n)%nat) as [Hn|Hn].
  - destruct (decide (Z.to_nat index < length fl)%nat) as [Hl|Hl].
    + rewrite lookup_resize by done.
      specialize (Hfl index). unfold flag_get in Hfl.
      by rewrite decide_True in Hfl.
    + rewrite lookup_resize_new by lia. done.
  - rewrite lookup_ge_None_2; [done|]. rewrite length_resize. lia.
Qed.

Lemma init_chunks_x_len tc xl yl :
  chunk_x_len_ (TileChangeset.init_chunks tc xl yl) = xl.
Proof. unfold TileChangeset.init_chunks. by destruct (negb _). Qed.

Lemma init_chunks_y_len tc xl yl :
  chunk_y_len_ (TileChangeset.init_chunks tc xl yl) = yl.
Proof. unfold TileChangeset.init_chunks. by destruct (negb _). Qed.

Lemma init_chunks_length tc xl yl :
  length (chunk_dirty_flags_ (TileChangeset.init_chunks tc xl yl)) = Z.to_nat (xl * yl).
Proof.
  unfold TileChangeset.init_chunks. destruct (negb _); simpl.
  - apply length_resize.
  - rewrite length_foldl_set. apply length_resize.
Qed.

(** After [init_chunks] the summary flag is off. *)
Lemma init_chunks_has_dirty tc xl yl :
  has_dirty_chunks_ (TileChangeset.init_chunks tc xl yl) = false.
Proof.
  unfold TileChangeset.init_chunks, TileChangeset.has_dirty_chunks.
  by destruct (has_dirty_chunks_ tc) eqn:Hd.
Qed.

(** After [init_chunks] no flag is set, provided the changeset honoured its
    summary flag before. *)
Lemma init_chunks_flags tc xl yl index :
  (has_dirty_chunks_ tc = false → ∀ i, flag_get (chunk_dirty_flags_ tc) i = false) →
  flag_get (chunk_dirty_flags_ (TileChangeset.init_chunks tc xl yl)) index = false.
Proof.
  intros Hsum.
  unfold TileChangeset.init_chunks, TileChangeset.has_dirty_chunks.
  destruct (has_dirty_chunks_ tc) eqn:Hd; simpl.
  - rewrite flag_get_foldl_set.
    destruct (decide _) as [|Hn]; [done|].
    rewrite length_resize in Hn.
    unfold flag_get. destruct (decide (0 ≤ index)) as [Hi|]; [|done].
    destruct (decide (Z.to_nat index < Z.to_nat (xl * yl))%nat) as [Hlt|Hge].
    + destruct (decide (Z.to_nat index < length (chunk_dirty_flags_ tc))%nat) as [Hl|Hl].
      * exfalso. apply Hn. split; [|lia].
        apply elem_of_seqZ. unfold min_ii. lia.
      * rewrite lookup_resize_new by lia. done.
    + rewrite lookup_ge_None_2; [done|]. rewrite length_resize. lia.
  - apply flag_get_resize_false. by apply Hsum.
Qed.

Lemma init_chunks_wf tc xl yl :
  0 ≤ xl → 0 ≤ yl →
  (has_dirty_chunks_ tc = false → ∀ i, flag_get (chunk_dirty_flags_ tc) i = false) →
  tile_changeset_wf (TileChangeset.init_chunks tc xl yl).
Proof.
  intros Hx Hy Hsum. split.
  - by rewrite init_chunks_x_len.
  - by rewrite init_chunks_y_len.
  - rewrite init_chunks_length, init_chunks_x_len, init_chunks_y_len. nia.
  - intros _ index. by apply init_chunks_flags.
Qed.

Lemma reset_wf tc : tile_changeset_wf tc → tile_changeset_wf (TileChangeset.reset tc).
Proof.
  intros Hwf. apply init_chunks_wf; [apply Hwf | apply Hwf | apply Hwf].
Qed.

Lemma reset_moved_from_wf tc :
  tile_changeset_wf tc →
  tile_changeset_wf (TileChangeset.reset (TileChangeset.moved_from tc)).
Proof.
  intros Hwf. apply init_chunks_wf; simpl; [apply Hwf | apply Hwf |].
  intros _ i. by apply flag_get_out_of_range; simpl; lia.
Qed.

Lemma empty_wf : tile_changeset_wf TileChangeset.empty.
Proof.
  split; simpl; [lia | lia | lia |].
  intros _ index. apply flag_get_out_of_range. simpl. lia.
Qed.

(** *** mark_chunks_dirty *)

Lemma mark_chunks_dirty_flags tc sx sy ex ey index :
  flag_get (chunk_dirty_flags_ (TileChangeset.mark_chunks_dirty tc sx sy ex ey)) index = true
  ↔ ((∃ cx cy, sx ≤ cx ≤ ex ∧ sy ≤ cy ≤ ey ∧ index = cy * chunk_x_len_ tc + cx)
      ∧ 0 ≤ index < Z.of_nat (length (chunk_dirty_flags_ tc)))
    ∨ flag_get (chunk_dirty_flags_ tc) index = true.
Proof.
  unfold TileChangeset.mark_chunks_dirty. cbn [chunk_dirty_flags_].
  rewrite (foldl_pointwise _
    (λ fl chunk_y, foldl (λ fl i, flag_set fl i true) fl
       ((λ chunk_x, chunk_y * chunk_x_len_ tc + chunk_x) <$> seqZ sx (ex - sx + 1)))).
  2:{ intros fl chunk_y. by rewrite <- foldl_fmap_arg. }
  rewrite (foldl_nested (λ fl i, flag_set fl i true)
             (λ chunk_y, (λ chunk_x, chunk_y * chunk_x_len_ tc + chunk_x)
                           <$> seqZ sx (ex - sx + 1))).
  rewrite flag_get_foldl_set.
  destruct (decide _) as [[Hin Hr]|Hn].
  - split; [intros _|done]. left. split; [|done].
    apply list_elem_of_bind in Hin as (cy & Hin & Hcy).
    apply list_elem_of_fmap in Hin as (cx & -> & Hcx).
    apply elem_of_seqZ in Hcx, Hcy. exists cx, cy. lia.
  - split; [by right|]. intros [[(cx & cy & Hcx & Hcy & ->) Hr]|H]; [|done].
    exfalso. apply Hn. split; [|done].
    apply list_elem_of_bind. exists cy. split.
    + apply list_elem_of_fmap. exists cx. split; [done|]. apply elem_of_seqZ. lia.
    + apply elem_of_seqZ. lia.
Qed.

Lemma mark_chunks_dirty_length tc sx sy ex ey :
  length (chunk_dirty_flags_ (TileChangeset.mark_chunks_dirty tc sx sy ex ey))
  = length (chunk_dirty_flags_ tc).
Proof.
  unfold TileChangeset.mark_chunks_dirty. cbn [chunk_dirty_flags_].
  generalize (chunk_dirty_flags_ tc) as fl.
  induction (seqZ sy (ey - sy + 1)) as [|cy l IH]; intros fl; simpl; [done|].
  rewrite IH.
  rewrite (foldl_fmap_arg (λ fl i, flag_set fl i true)
             (λ chunk_x, cy * chunk_x_len_ tc + chunk_x)).
  apply length_foldl_set.
Qed.

Lemma mark_chunks_dirty_wf tc sx sy ex ey :
  tile_changeset_wf tc →
  tile_changeset_wf (TileChangeset.mark_chunks_dirty tc sx sy ex ey).
Proof.
  intros Hwf. split.
  - apply Hwf.
  - apply Hwf.
  - rewrite mark_chunks_dirty_length. apply Hwf.
  - intros Hd. discriminate Hd.
Qed.

(** *** merge *)

Lemma merge_x_len a b : chunk_x_len_ (TileChangeset.merge a b) = chunk_x_len_ a.
Proof. done. Qed.

Lemma merge_y_len a b : chunk_y_len_ (TileChangeset.merge a b) = chunk_y_len_ a.
Proof. done. Qed.

Lemma merge_length a b :
  length (chunk_dirty_flags_ (TileChangeset.merge a b)) = length (chunk_dirty_flags_ a).
Proof. unfold TileChangeset.merge. cbn [chunk_dirty_flags_]. apply length_foldl_or. Qed.

(** Every flag of the merged changeset is the or of the two flags. *)
Lemma merge_flags a b index :
  Z.of_nat (length (chunk_dirty_flags_ a)) = chunk_x_len_ a * chunk_y_len_ a →
  length (chunk_dirty_flags_ b) = length (chunk_dirty_flags_ a) →
  flag_get (chunk_dirty_flags_ (TileChangeset.merge a b)) index =
  flag_get (chunk_dirty_flags_ a) index || flag_get (chunk_dirty_flags_ b) index.
Proof.
  intros Hlen Hab. unfold TileChangeset.merge. cbn [chunk_dirty_flags_].
  rewrite flag_get_foldl_or.
  destruct (decide _) as [|Hn]; [done|].
  assert (¬ (0 ≤ index < Z.of_nat (length (chunk_dirty_flags_ a)))) as Hout.
  { intros Hr. apply Hn. split; [|done]. apply elem_of_seqZ. lia. }
  rewrite (flag_get_out_of_range (chunk_dirty_flags_ a)) by done.
  rewrite (flag_get_out_of_range (chunk_dirty_flags_ b)) by (by rewrite Hab).
  done.
Qed.

(** The loop of [merge] indexes both vectors inside their bounds. *)
Lemma merge_in_bounds a b chunk_index :
  tile_changeset_wf a → tile_changeset_wf b →
  chunk_x_len_ a = chunk_x_len_ b → chunk_y_len_ a = chunk_y_len_ b →
  chunk_index ∈ seqZ 0 (chunk_x_len_ a * chunk_y_len_ a) →
  0 ≤ chunk_index < Z.of_nat (length (chunk_dirty_flags_ a))
  ∧ 0 ≤ chunk_index < Z.of_nat (length (chunk_dirty_flags_ b)).
Proof.
  intros Ha Hb Hx Hy Hin. apply elem_of_seqZ in Hin.
  rewrite (wf_flags_len _ Ha), (wf_flags_len _ Hb), <- Hx, <- Hy. lia.
Qed.

Lemma merge_self a : TileChangeset.merge a a = a.
Proof.
  unfold TileChangeset.merge.
  rewrite foldl_fixed.
  - destruct a as [fl d xl yl]; simpl. by rewrite orb_diag.
  - intros index. rewrite orb_diag. apply flag_set_same.
Qed.

Lemma merge_wf a b :
  tile_changeset_wf a → tile_changeset_wf b →
  chunk_x_len_ a = chunk_x_len_ b → chunk_y_len_ a = chunk_y_len_ b →
  tile_changeset_wf (TileChangeset.merge a b).
Proof.
  intros Ha Hb Hx Hy.
  assert (length (chunk_dirty_flags_ b) = length (chunk_dirty_flags_ a)) as Hlen.
  { apply Nat2Z.inj. rewrite (wf_flags_len _ Ha), (wf_flags_len _ Hb). by rewrite Hx, Hy. }
  split.
  - apply Ha.
  - apply Ha.
  - rewrite merge_length. apply Ha.
  - cbn [TileChangeset.merge has_dirty_chunks_]. intros Hd index.
    apply orb_false_iff in Hd as [Hda Hdb].
    rewrite merge_flags by (done || apply Ha).
    by rewrite (wf_summary _ Ha Hda), (wf_summary _ Hb Hdb).
Qed.

(** C8.  For two tile changesets with the same chunk grid, a chunk of the
    grid is dirty after [merge] exactly when it was dirty in the receiver or
    in the argument before, the summary flag of the result is the
    disjunction of the two summary flags, and merging a changeset with
    itself leaves it unchanged. *)
Theorem C8_merge_pairwise_or_and_idempotent (a b : TileChangeset) :
  tile_changeset_wf a → tile_changeset_wf b →
  chunk_x_len_ a = chunk_x_len_ b → chunk_y_len_ a = chunk_y_len_ b →
  (∀ cx cy, on_grid a cx cy →
     TileChangeset.is_chunk_dirty (TileChangeset.merge a b) cx cy = true
     ↔ TileChangeset.is_chunk_dirty a cx cy = true
       ∨ TileChangeset.is_chunk_dirty b cx cy = true)
  ∧ TileChangeset.has_dirty_chunks (TileChangeset.merge a b)
    = TileChangeset.has_dirty_chunks a || TileChangeset.has_dirty_chunks b
  ∧ TileChangeset.merge a a = a.
Proof.
  intros Ha Hb Hx Hy. split; [|split].
  - intros cx cy _. unfold TileChangeset.is_chunk_dirty.
    rewrite merge_x_len, merge_flags.
    + rewrite <- Hx. apply orb_true_iff.
    + apply Ha.
    + apply Nat2Z.inj. rewrite (wf_flags_len _ Ha), (wf_flags_len _ Hb).
      by rewrite Hx, Hy.
  - done.
  - apply merge_self.
Qed.

Definition example_changeset_a : TileChangeset :=
  Build_TileChangeset [true; false; false; false] true 2 2.
Definition example_changeset_b : TileChangeset :=
  Build_TileChangeset [false; false; false; true] true 2 2.

Lemma example_changeset_a_wf : tile_changeset_wf example_changeset_a.
Proof. split; simpl; [lia | lia | lia | discriminate]. Defined.

Lemma example_changeset_b_wf : tile_changeset_wf example_changeset_b.
Proof. split; simpl; [lia | lia | lia | discriminate]. Defined.

Lemma C8_merge_witness :
  (∀ cx cy, on_grid example_changeset_a cx cy →
     TileChangeset.is_chunk_dirty
       (TileChangeset.merge example_changeset_a example_changeset_b) cx cy = true
     ↔ TileChangeset.is_chunk_dirty example_changeset_a cx cy = true
       ∨ TileChangeset.is_chunk_dirty example_changeset_b cx cy = true)
  ∧ TileChangeset.has_dirty_chunks
      (TileChangeset.merge example_changeset_a example_changeset_b)
    = TileChangeset.has_dirty_chunks example_changeset_a
      || TileChangeset.has_dirty_chunks example_changeset_b
  ∧ TileChangeset.merge example_changeset_a example_changeset_a = example_changeset_a.
Proof.
  apply (C8_merge_pairwise_or_and_idempotent example_changeset_a example_changeset_b).
  - exact example_changeset_a_wf.
  - exact example_changeset_b_wf.
  - reflexivity.
  - reflexivity.
Defined.

(** ** The chunk of a pixel *)

Lemma chunk_number_for_pixel_nonneg p :
  0 ≤ p → PartialUpdateRegisterImpl.chunk_number_for_pixel p = p `div` 256.
Proof.
  intros Hp. unfold PartialUpdateRegisterImpl.chunk_number_for_pixel.
  rewrite decide_False by lia.
  apply Z.quot_div_nonneg; [done | done].
Qed.

Lemma chunk_number_for_pixel_negative p :
  p < 0 →
  PartialUpdateRegisterImpl.chunk_number_for_pixel p
  = if decide (p `mod` 256 = 0) then p `div` 256 - 1 else p `div` 256.
Proof.
  intros Hp. unfold PartialUpdateRegisterImpl.chunk_number_for_pixel,
    PartialUpdateRegisterImpl.CHUNK_SIZE.
  rewrite decide_True by done.
  pose proof (Z.quot_rem' p 256) as Hqr.
  pose proof (Z.rem_bound_pos_neg p 256 ltac:(lia) ltac:(lia)) as Hr.
  pose proof (Z.div_mod p 256 ltac:(lia)) as Hdm.
  pose proof (Z.mod_pos_bound p 256 ltac:(lia)) as Hm.
  case_decide; lia.
Qed.

(** On every coordinate except the negative multiples of the chunk size the
    code computes the floor of [p / CHUNK_SIZE]. *)
Lemma chunk_number_for_pixel_floor p :
  0 ≤ p ∨ p `mod` 256 ≠ 0 →
  PartialUpdateRegisterImpl.chunk_number_for_pixel p = p `div` 256.
Proof.
  intros Hp. destruct (decide (0 ≤ p)) as [Hnn|Hneg].
  - by apply chunk_number_for_pixel_nonneg.
  - rewrite chunk_number_for_pixel_negative by lia.
    rewrite decide_False; [done|]. destruct Hp; [lia | done].
Qed.

(** C3.  The chunk index of pixel -256, which lies in chunk -1 (pixels -256
    to -1), is computed as -2, not as the floor of -256 / 256: the
    correction for negative coordinates is applied to exact multiples of the
    chunk size too, where truncating division is already the floor.  Pixel -1
    maps to chunk -1 as stated. *)
Theorem C3_chunk_number_for_pixel_negative_multiple :
  PartialUpdateRegisterImpl.chunk_number_for_pixel (-256) = -2
  ∧ (-256) `div` PartialUpdateRegisterImpl.CHUNK_SIZE = -1
  ∧ PartialUpdateRegisterImpl.chunk_number_for_pixel (-256)
    ≠ (-256) `div` PartialUpdateRegisterImpl.CHUNK_SIZE
  ∧ PartialUpdateRegisterImpl.chunk_number_for_pixel (-1) = -1.
Proof. repeat split; done. Qed.

(** ** The register: changeset ids and history *)

Import PartialUpdateRegisterImpl.

(** The operations a producer or a collection pass runs on a register. *)
Inductive RegisterOp : Type :=
  | OpMarkRegion (updated_region : rcti)
  | OpMarkFullUpdate
  | OpCommitCurrentChangeset
  | OpEnsureEmptyChangeset
  | OpUpdateResolution (image_buffer : ImBuf).

Definition apply_op (self : PartialUpdateRegisterImpl) (op : RegisterOp)
  : PartialUpdateRegisterImpl :=
  match op with
  | OpMarkRegion updated_region => mark_region self updated_region
  | OpMarkFullUpdate => mark_full_update self
  | OpCommitCurrentChangeset => commit_current_changeset self
  | OpEnsureEmptyChangeset => ensure_empty_changeset self
  | OpUpdateResolution image_buffer => update_resolution self image_buffer
  end.

Definition apply_ops (self : PartialUpdateRegisterImpl) (ops : list RegisterOp)
  : PartialUpdateRegisterImpl :=
  foldl apply_op self ops.

(** Changeset ids map one to one onto the slots of the history. *)
Definition history_ids_ok (r : PartialUpdateRegisterImpl) : Prop :=
  last_changeset_id r - first_changeset_id r = Z.of_nat (length (history r)).

(** What one operation does to the ids and to the history length. *)
Definition ids_step (r r' : PartialUpdateRegisterImpl) : Prop :=
  (history_ids_ok r → history_ids_ok r')
  ∧ first_changeset_id r ≤ first_changeset_id r'
  ∧ last_changeset_id r ≤ last_changeset_id r'.

Lemma ids_step_refl r : ids_step r r.
Proof. unfold ids_step. auto with lia. Qed.

Lemma mark_region_ids r rect :
  first_changeset_id (mark_region r rect) = first_changeset_id r
  ∧ last_changeset_id (mark_region r rect) = last_changeset_id r
  ∧ history (mark_region r rect) = history r
  ∧ image_width (mark_region r rect) = image_width r
  ∧ image_height (mark_region r rect) = image_height r.
Proof. unfold mark_region. repeat case_decide; done. Qed.

Lemma mark_region_ids_step r rect : ids_step r (mark_region r rect).
Proof.
  destruct (mark_region_ids r rect) as (Hf & Hl & Hh & _).
  unfold ids_step, history_ids_ok. rewrite Hf, Hl, Hh. auto with lia.
Qed.

Lemma mark_full_update_ids_step r :
  history_ids_ok r → ids_step r (mark_full_update r).
Proof.
  unfold ids_step, history_ids_ok. simpl. intros Hr.
  pose proof (Nat2Z.is_nonneg (length (history r))). lia.
Qed.

Lemma commit_current_changeset_ids_step r : ids_step r (commit_current_changeset r).
Proof.
  unfold ids_step, history_ids_ok. simpl. rewrite length_app. simpl. lia.
Qed.

Lemma ensure_empty_changeset_ids_step r : ids_step r (ensure_empty_changeset r).
Proof.
  unfold ensure_empty_changeset. destruct (negb _).
  - apply ids_step_refl.
  - apply commit_current_changeset_ids_step.
Qed.

Lemma update_resolution_ids_step r image_buffer :
  history_ids_ok r → ids_step r (update_resolution r image_buffer).
Proof.
  intros Hr. unfold update_resolution.
  case_decide; [|apply ids_step_refl].
  destruct (_ || _).
  - destruct (mark_full_update_ids_step
                (Build_PartialUpdateRegisterImpl
                   (first_changeset_id r) (last_changeset_id r) (history r)
                   (Build_Changeset
                      (TileChangeset.init_chunks (tile_changeset (current_changeset r))
                         (Z.quot (x image_buffer) CHUNK_SIZE)
                         (Z.quot (y image_buffer) CHUNK_SIZE)))
                   (x image_buffer) (y image_buffer)) Hr) as (H1 & H2 & H3).
    split; [|split]; [intros _; by apply H1 | exact H2 | exact H3].
  - unfold ids_step, history_ids_ok. simpl. auto with lia.
Qed.

Lemma apply_op_ids_step r op : history_ids_ok r → ids_step r (apply_op r op).
Proof.
  intros Hr. destruct op; simpl.
  - apply mark_region_ids_step.
  - by apply mark_full_update_ids_step.
  - apply commit_current_changeset_ids_step.
  - apply ensure_empty_changeset_ids_step.
  - by apply update_resolution_ids_step.
Qed.

Lemma new_history_ids_ok : history_ids_ok PartialUpdateRegisterImpl.new.
Proof. reflexivity. Qed.

(** C7.  Every sequence of register operations ([mark_region],
    [mark_full_update], [commit_current_changeset], [ensure_empty_changeset],
    [update_resolution], with any arguments) preserves
    [last_changeset_id - first_changeset_id = len(history)], keeps
    [first_changeset_id <= last_changeset_id], and never decreases
    [last_changeset_id]. *)
Theorem C7_history_ids_preserved (ops : list RegisterOp) (r : PartialUpdateRegisterImpl) :
  history_ids_ok r →
  history_ids_ok (apply_ops r ops)
  ∧ first_changeset_id (apply_ops r ops) ≤ last_changeset_id (apply_ops r ops)
  ∧ last_changeset_id r ≤ last_changeset_id (apply_ops r ops).
Proof.
  revert r. induction ops as [|op ops IH]; intros r Hr.
  - unfold history_ids_ok in Hr. simpl. split; [done|].
    pose proof (Nat2Z.is_nonneg (length (history r))). lia.
  - destruct (apply_op_ids_step r op Hr) as (Hok & _ & Hlast).
    destruct (IH (apply_op r op) (Hok Hr)) as (H1 & H2 & H3).
    unfold apply_ops in *. simpl. split; [done|]. split; [done|]. lia.
Qed.

Definition example_ops : list RegisterOp :=
  [ OpUpdateResolution (Build_ImBuf 512 512);
    OpMarkRegion (Build_rcti 0 300 0 10);
    OpEnsureEmptyChangeset;
    OpMarkRegion (Build_rcti 300 400 300 400);
    OpCommitCurrentChangeset;
    OpUpdateResolution (Build_ImBuf 1024 512);
    OpMarkFullUpdate ].

Lemma C7_history_ids_witness :
  history_ids_ok (apply_ops PartialUpdateRegisterImpl.new example_ops)
  ∧ first_changeset_id (apply_ops PartialUpdateRegisterImpl.new example_ops)
    ≤ last_changeset_id (apply_ops PartialUpdateRegisterImpl.new example_ops)
  ∧ last_changeset_id PartialUpdateRegisterImpl.new
    ≤ last_changeset_id (apply_ops PartialUpdateRegisterImpl.new example_ops).
Proof.
  apply (C7_history_ids_preserved example_ops PartialUpdateRegisterImpl.new).
  reflexivity.
Defined.

(** ** Well-formed registers *)

(** The grid of [tc] is the one the cached resolution gives. *)
Definition grid_matches (width height : Z) (tc : TileChangeset) : Prop :=
  chunk_x_len_ tc = Z.quot width CHUNK_SIZE
  ∧ chunk_y_len_ tc = Z.quot height CHUNK_SIZE.

Definition changeset_ok (width height : Z) (cs : Changeset) : Prop :=
  tile_changeset_wf (tile_changeset cs) ∧ grid_matches width height (tile_changeset cs).

Record register_wf (r : PartialUpdateRegisterImpl) : Prop := Build_register_wf {
  reg_first_nonneg : 0 ≤ first_changeset_id r;
  reg_ids : history_ids_ok r;
  reg_width : 0 ≤ image_width r;
  reg_height : 0 ≤ image_height r;
  reg_current : changeset_ok (image_width r) (image_height r) (current_changeset r);
  reg_history : Forall (changeset_ok (image_width r) (image_height r)) (history r);
}.

(** Image buffers have non-negative sizes. *)
Definition image_buffer_ok (image_buffer : ImBuf) : Prop :=
  0 ≤ x image_buffer ∧ 0 ≤ y image_buffer.

Definition op_ok (op : RegisterOp) : Prop :=
  match op with
  | OpUpdateResolution image_buffer => image_buffer_ok image_buffer
  | _ => True
  end.

Lemma quot_chunk_size_nonneg n : 0 ≤ n → 0 ≤ Z.quot n CHUNK_SIZE.
Proof. intros Hn. apply Z.quot_pos; [done | done]. Qed.

Lemma new_register_wf : register_wf PartialUpdateRegisterImpl.new.
Proof.
  split; simpl; try done.
  - split; [apply empty_wf | done].
Qed.

Lemma mark_full_update_wf r : register_wf r → register_wf (mark_full_update r).
Proof.
  intros Hwf. destruct (reg_current _ Hwf) as [Hc Hg].
  split; simpl.
  - pose proof (reg_first_nonneg _ Hwf). pose proof (reg_ids _ Hwf) as Hids.
    unfold history_ids_ok in Hids. lia.
  - unfold history_ids_ok. simpl. lia.
  - apply Hwf.
  - apply Hwf.
  - split; simpl; [by apply reset_wf|].
    unfold grid_matches, TileChangeset.reset.
    by rewrite init_chunks_x_len, init_chunks_y_len.
  - constructor.
Qed.

Lemma mark_region_wf r rect : register_wf r → register_wf (mark_region r rect).
Proof.
  intros Hwf. unfold mark_region. repeat case_decide; try done.
  destruct (reg_current _ Hwf) as [Hc Hg].
  split; simpl; try apply Hwf.
  split; simpl; [by apply mark_chunks_dirty_wf | done].
Qed.

Lemma commit_current_changeset_wf r :
  register_wf r → register_wf (commit_current_changeset r).
Proof.
  intros Hwf. destruct (reg_current _ Hwf) as [Hc Hg].
  split; simpl.
  - apply Hwf.
  - pose proof (reg_ids _ Hwf) as Hids. unfold history_ids_ok in *. simpl.
    rewrite length_app. simpl. lia.
  - apply Hwf.
  - apply Hwf.
  - split; simpl; [by apply reset_moved_from_wf|].
    unfold grid_matches, TileChangeset.reset.
    by rewrite init_chunks_x_len, init_chunks_y_len.
  - apply Forall_app. split; [apply Hwf|].
    constructor; [|constructor]. by split.
Qed.

Lemma ensure_empty_changeset_wf r :
  register_wf r → register_wf (ensure_empty_changeset r).
Proof.
  intros Hwf. unfold ensure_empty_changeset.
  destruct (negb _); [done | by apply commit_current_changeset_wf].
Qed.

(** The test in [update_resolution] reads the summary flag after
    [init_chunks] has cleared it: only the history decides. *)
Lemma update_resolution_unfold r image_buffer :
  update_resolution r image_buffer =
  if decide (image_width r ≠ x image_buffer ∨ image_height r ≠ y image_buffer) then
    let resized :=
      Build_PartialUpdateRegisterImpl
        (first_changeset_id r) (last_changeset_id r) (history r)
        (Build_Changeset
           (TileChangeset.init_chunks (tile_changeset (current_changeset r))
              (Z.quot (x image_buffer) CHUNK_SIZE) (Z.quot (y image_buffer) CHUNK_SIZE)))
        (x image_buffer) (y image_buffer) in
    if bool_decide (history r = []) then resized else mark_full_update resized
  else r.
Proof.
  unfold update_resolution. case_decide; [|done].
  cbn [current_changeset tile_changeset history].
  unfold TileChangeset.has_dirty_chunks. rewrite init_chunks_has_dirty.
  by destruct (bool_decide (history r = [])).
Qed.

Lemma update_resolution_wf r image_buffer :
  image_buffer_ok image_buffer → register_wf r →
  register_wf (update_resolution r image_buffer).
Proof.
  intros [Hx Hy] Hwf. rewrite update_resolution_unfold.
  case_decide; [|done]. cbn zeta.
  destruct (reg_current _ Hwf) as [Hc Hg].
  assert (changeset_ok (x image_buffer) (y image_buffer)
            (Build_Changeset
               (TileChangeset.init_chunks (tile_changeset (current_changeset r))
                  (Z.quot (x image_buffer) CHUNK_SIZE)
                  (Z.quot (y image_buffer) CHUNK_SIZE)))) as Hcur.
  { split; simpl.
    - apply init_chunks_wf; [by apply quot_chunk_size_nonneg
                            | by apply quot_chunk_size_nonneg | apply Hc].
    - unfold grid_matches. by rewrite init_chunks_x_len, init_chunks_y_len. }
  case_bool_decide as Hh.
  - split; simpl; try done; try apply Hwf. rewrite Hh. constructor.
  - destruct Hcur as [Hcw Hcg].
    split; simpl.
    + pose proof (reg_first_nonneg _ Hwf). pose proof (reg_ids _ Hwf) as Hids.
      unfold history_ids_ok in Hids. lia.
    + unfold history_ids_ok. simpl. lia.
    + done.
    + done.
    + split; simpl; [by apply reset_wf|].
      unfold grid_matches, TileChangeset.reset.
      by rewrite init_chunks_x_len, init_chunks_y_len.
    + constructor.
Qed.

Lemma apply_op_wf r op : op_ok op → register_wf r → register_wf (apply_op r op).
Proof.
  intros Hop Hwf. destruct op; simpl.
  - by apply mark_region_wf.
  - by apply mark_full_update_wf.
  - by apply commit_current_changeset_wf.
  - by apply ensure_empty_changeset_wf.
  - by apply update_resolution_wf.
Qed.

(** Every register reached from a new one is well formed. *)
Lemma apply_ops_wf r ops :
  Forall op_ok ops → register_wf r → register_wf (apply_ops r ops).
Proof.
  intros Hops. revert r. induction Hops as [|op ops Hop _ IH]; intros r Hwf; [done|].
  unfold apply_ops. simpl. apply IH. by apply apply_op_wf.
Qed.

(** The indices [mark_region] hands to [mark_chunks_dirty] stay inside the
    flag vector: the stores of the two loops are in range. *)
Lemma mark_region_in_bounds r rect cx cy :
  register_wf r →
  let tc := tile_changeset (current_changeset r) in
  max_ii 0 (chunk_number_for_pixel (xmin rect)) ≤ cx
    ≤ min_ii (chunk_x_len_ tc - 1) (chunk_number_for_pixel (xmax rect - 1)) →
  max_ii 0 (chunk_number_for_pixel (ymin rect)) ≤ cy
    ≤ min_ii (chunk_y_len_ tc - 1) (chunk_number_for_pixel (ymax rect - 1)) →
  0 ≤ cy * chunk_x_len_ tc + cx < Z.of_nat (length (chunk_dirty_flags_ tc)).
Proof.
  intros Hwf tc Hx Hy. destruct (reg_current _ Hwf) as [Hc _].
  apply on_grid_index; [done|]. unfold on_grid, max_ii, min_ii in *.
  fold tc. lia.
Qed.

(** ** Merging the history *)

Lemma foldl_merge_spec width height (l : list Changeset) (acc : TileChangeset) :
  tile_changeset_wf acc → grid_matches width height acc →
  Forall (changeset_ok width height) l →
  let merged := foldl (λ acc cs, TileChangeset.merge acc (tile_changeset cs)) acc l in
  tile_changeset_wf merged ∧ grid_matches width height merged
  ∧ ∀ index,
      flag_get (chunk_dirty_flags_ merged) index = true
      ↔ flag_get (chunk_dirty_flags_ acc) index = true
        ∨ ∃ cs, cs ∈ l ∧ flag_get (chunk_dirty_flags_ (tile_changeset cs)) index = true.
Proof.
  intros Hacc Hgrid Hl. revert acc Hacc Hgrid.
  induction Hl as [|cs l [Hcs Hcsg] _ IH]; intros acc Hacc Hgrid; cbn zeta; simpl.
  - split; [done|]. split; [done|]. intros index. split; [by left|].
    intros [H|(cs & Hin & _)]; [done|]. by apply elem_of_nil in Hin.
  - destruct Hgrid as [Hgx Hgy]. destruct Hcsg as [Hcx Hcy].
    assert (chunk_x_len_ acc = chunk_x_len_ (tile_changeset cs)) as Hx by congruence.
    assert (chunk_y_len_ acc = chunk_y_len_ (tile_changeset cs)) as Hy by congruence.
    destruct (IH (TileChangeset.merge acc (tile_changeset cs))) as (Hw & Hg & Hflags).
    { by apply merge_wf. }
    { by split. }
    split; [done|]. split; [done|]. intros index.
    rewrite Hflags. rewrite merge_flags.
    2:{ apply Hacc. }
    2:{ apply Nat2Z.inj. rewrite (wf_flags_len _ Hacc), (wf_flags_len _ Hcs).
        by rewrite Hx, Hy. }
    rewrite orb_true_iff. split.
    + intros [[H|H]|(cs' & Hin & H)].
      * by left.
      * right. exists cs. split; [by left | done].
      * right. exists cs'. split; [by right | done].
    + intros [H|(cs' & Hin & H)]; [by left; left|].
      apply elem_of_cons in Hin as [->|Hin].
      * left. by right.
      * right. by exists cs'.
Qed.

(** Chunk [(cx, cy)] is dirty in some changeset committed after
    [from_changeset], i.e. in a history slot of index at least
    [from_changeset - first_changeset_id]. *)
Definition dirty_since (r : PartialUpdateRegisterImpl) (from_changeset : ChangesetID)
    (cx cy : Z) : Prop :=
  ∃ (i : nat) (cs : Changeset),
    history r !! i = Some cs
    ∧ from_changeset - first_changeset_id r ≤ Z.of_nat i
    ∧ TileChangeset.is_chunk_dirty (tile_changeset cs) cx cy = true.

Lemma changed_tile_chunks_since_spec r tn from_changeset :
  register_wf r → first_changeset_id r ≤ from_changeset →
  let changed := changed_tile_chunks_since r tn from_changeset in
  tile_changeset_wf changed
  ∧ grid_matches (image_width r) (image_height r) changed
  ∧ ∀ cx cy,
      TileChangeset.is_chunk_dirty changed cx cy = true
      ↔ dirty_since r from_changeset cx cy.
Proof.
  intros Hwf Hfrom. cbn zeta. unfold changed_tile_chunks_since.
  set (xl := Z.quot (image_width r) CHUNK_SIZE).
  set (yl := Z.quot (image_height r) CHUNK_SIZE).
  set (n := Z.to_nat (from_changeset - first_changeset_id r)).
  assert (0 ≤ xl) as Hxl by (apply quot_chunk_size_nonneg, Hwf).
  assert (0 ≤ yl) as Hyl by (apply quot_chunk_size_nonneg, Hwf).
  destruct (foldl_merge_spec (image_width r) (image_height r)
              (drop n (history r))
              (TileChangeset.init_chunks TileChangeset.empty xl yl))
    as (Hw & Hg & Hflags).
  { apply init_chunks_wf; [done | done | apply empty_wf]. }
  { unfold grid_matches. by rewrite init_chunks_x_len, init_chunks_y_len. }
  { apply Forall_drop, Hwf. }
  split; [done|]. split; [done|]. intros cx cy.
  unfold TileChangeset.is_chunk_dirty at 1. rewrite Hflags.
  rewrite init_chunks_flags by apply empty_wf.
  destruct Hg as [Hgx _]. rewrite Hgx. fold xl.
  pose proof (reg_history _ Hwf) as Hhist.
  unfold dirty_since. split.
  - intros [H|(cs & Hin & Hd)]; [done|].
    apply list_elem_of_lookup in Hin as [i Hi]. rewrite lookup_drop in Hi.
    exists (n + i)%nat, cs. split; [done|]. split; [lia|].
    unfold TileChangeset.is_chunk_dirty.
    rewrite Forall_forall in Hhist.
    destruct (Hhist cs) as [_ [Hcx _]].
    { apply list_elem_of_lookup. by exists (n + i)%nat. }
    by rewrite Hcx.
  - intros (i & cs & Hi & Hge & Hd). right. exists cs. split.
    + apply list_elem_of_lookup. exists (i - n)%nat. rewrite lookup_drop.
      replace (n + (i - n))%nat with i by lia. done.
    + unfold TileChangeset.is_chunk_dirty in Hd.
      rewrite Forall_forall in Hhist.
      destruct (Hhist cs) as [_ [Hcx _]].
      { apply list_elem_of_lookup. by exists i. }
      by rewrite Hcx in Hd.
Qed.

(** ** Collecting changes *)

(** The rectangle reported for chunk [(cx, cy)] of a tile: the pixel extent
    of that one chunk. *)
Definition chunk_region (tn : TileNumber) (cx cy : Z) : PartialUpdateRegion :=
  Build_PartialUpdateRegion tn
    (Build_rcti (cx * CHUNK_SIZE) ((cx + 1) * CHUNK_SIZE)
                (cy * CHUNK_SIZE) ((cy + 1) * CHUNK_SIZE)).

(** The rectangles of the dirty chunks of [changed], row by row. *)
Definition dirty_regions (changed : TileChangeset) (tn : TileNumber)
  : list PartialUpdateRegion :=
  seqZ 0 (chunk_y_len_ changed) ≫= λ cy,
    seqZ 0 (chunk_x_len_ changed) ≫= λ cx,
      if TileChangeset.is_chunk_dirty changed cx cy then [chunk_region tn cx cy] else [].

Definition extend_regions (u : PartialUpdateUserImpl) (l : list PartialUpdateRegion)
  : PartialUpdateUserImpl :=
  Build_PartialUpdateUserImpl (user_last_changeset_id u) (updated_regions u ++ l).

Lemma extend_regions_nil u : extend_regions u [] = u.
Proof. destruct u. unfold extend_regions. simpl. by rewrite app_nil_r. Qed.

Lemma extend_regions_app u l1 l2 :
  extend_regions (extend_regions u l1) l2 = extend_regions u (l1 ++ l2).
Proof. unfold extend_regions. simpl. by rewrite app_assoc. Qed.

Lemma foldl_extend_regions {A} (h : A → list PartialUpdateRegion) u (l : list A) :
  foldl (λ u e, extend_regions u (h e)) u l = extend_regions u (l ≫= h).
Proof.
  revert u. induction l as [|e l IH]; intros u; simpl.
  - by rewrite extend_regions_nil.
  - by rewrite IH, extend_regions_app.
Qed.

Lemma collect_changes_of_tile_regions r u tile :
  let changed :=
    changed_tile_chunks_since r (ImageTile.tile_number tile) (user_last_changeset_id u) in
  collect_changes_of_tile r u tile =
  extend_regions u
    (if TileChangeset.has_dirty_chunks changed
     then dirty_regions changed (ImageTile.tile_number tile) else []).
Proof.
  cbn zeta. unfold collect_changes_of_tile.
  set (changed := changed_tile_chunks_since r _ _).
  destruct (TileChangeset.has_dirty_chunks changed); simpl.
  2:{ by rewrite extend_regions_nil. }
  unfold dirty_regions.
  rewrite <- (foldl_extend_regions
    (λ cy, seqZ 0 (chunk_x_len_ changed) ≫= λ cx,
       if TileChangeset.is_chunk_dirty changed cx cy
       then [chunk_region (ImageTile.tile_number tile) cx cy] else [])).
  apply foldl_pointwise. intros acc cy.
  rewrite <- (foldl_extend_regions
    (λ cx, if TileChangeset.is_chunk_dirty changed cx cy
           then [chunk_region (ImageTile.tile_number tile) cx cy] else [])).
  apply foldl_pointwise. intros acc' cx.
  destruct (TileChangeset.is_chunk_dirty changed cx cy); simpl.
  - done.
  - by rewrite extend_regions_nil.
Qed.

Lemma collect_changes_of_tile_id r u tile :
  user_last_changeset_id (collect_changes_of_tile r u tile) = user_last_changeset_id u.
Proof. by rewrite collect_changes_of_tile_regions. Qed.

(** The rectangles one tile contributes for a cursor that last saw
    changeset [last_seen]. *)
Definition tile_regions (r : PartialUpdateRegisterImpl) (last_seen : ChangesetID)
    (tile : ImageTile.t) : list PartialUpdateRegion :=
  let changed := changed_tile_chunks_since r (ImageTile.tile_number tile) last_seen in
  if TileChangeset.has_dirty_chunks changed
  then dirty_regions changed (ImageTile.tile_number tile) else [].

Lemma foldl_collect_changes_of_tile r u (tl : list ImageTile.t) :
  foldl (collect_changes_of_tile r) u tl =
  extend_regions u (tl ≫= tile_regions r (user_last_changeset_id u)).
Proof.
  revert u. induction tl as [|tile tl IH]; intros u; simpl.
  - by rewrite extend_regions_nil.
  - rewrite IH, collect_changes_of_tile_regions. cbn zeta.
    rewrite extend_regions_app. done.
Qed.

Definition on_register_grid (r : PartialUpdateRegisterImpl) (cx cy : Z) : Prop :=
  0 ≤ cx < Z.quot (image_width r) CHUNK_SIZE
  ∧ 0 ≤ cy < Z.quot (image_height r) CHUNK_SIZE.

(** Membership in the rectangles of one tile. *)
Lemma elem_of_tile_regions r last_seen tile reg :
  register_wf r → first_changeset_id r ≤ last_seen →
  reg ∈ tile_regions r last_seen tile
  ↔ ∃ cx cy, on_register_grid r cx cy ∧ dirty_since r last_seen cx cy
             ∧ reg = chunk_region (ImageTile.tile_number tile) cx cy.
Proof.
  intros Hwf Hfrom. unfold tile_regions.
  destruct (changed_tile_chunks_since_spec r (ImageTile.tile_number tile) last_seen Hwf Hfrom)
    as (Hcw & [Hgx Hgy] & Hdirty).
  set (changed := changed_tile_chunks_since r _ _) in *.
  assert (reg ∈ dirty_regions changed (ImageTile.tile_number tile)
          ↔ ∃ cx cy, on_register_grid r cx cy ∧ dirty_since r last_seen cx cy
                     ∧ reg = chunk_region (ImageTile.tile_number tile) cx cy) as Hmem.
  { unfold dirty_regions. rewrite list_elem_of_bind. split.
    - intros (cy & Hin & Hcy). apply list_elem_of_bind in Hin as (cx & Hin & Hcx).
      apply elem_of_seqZ in Hcx, Hcy.
      destruct (TileChangeset.is_chunk_dirty changed cx cy) eqn:Hd.
      + apply list_elem_of_singleton in Hin as ->. exists cx, cy.
        split; [unfold on_register_grid; lia|]. split; [by apply Hdirty | done].
      + by apply elem_of_nil in Hin.
    - intros (cx & cy & [Hcx Hcy] & Hd & ->). exists cy. split.
      + apply list_elem_of_bind. exists cx. split.
        * apply Hdirty in Hd. rewrite Hd. by apply list_elem_of_singleton.
        * apply elem_of_seqZ. lia.
      + apply elem_of_seqZ. lia. }
  destruct (TileChangeset.has_dirty_chunks changed) eqn:Hhas; [done|].
  split; [intros Hin; by apply elem_of_nil in Hin|].
  intros (cx & cy & _ & Hd & _). apply Hdirty in Hd.
  unfold TileChangeset.is_chunk_dirty in Hd.
  by rewrite (wf_summary _ Hcw Hhas) in Hd.
Qed.

(** The three results of a collection pass. *)
Definition collect_result (image : Image) (user : PartialUpdateUserImpl)
  : ePartialUpdateCollectResult :=
  (BKE_image_partial_update_collect_changes image user).1.1.
Definition collect_image (image : Image) (user : PartialUpdateUserImpl) : Image :=
  (BKE_image_partial_update_collect_changes image user).1.2.
Definition collect_user (image : Image) (user : PartialUpdateUserImpl)
  : PartialUpdateUserImpl :=
  (BKE_image_partial_update_collect_changes image user).2.

Lemma register_ensure_some image r :
  partial_update_register image = Some r →
  image_partial_update_register_ensure image = (r, image).
Proof. intros Hr. unfold image_partial_update_register_ensure. by rewrite Hr. Qed.

Lemma ensure_empty_changeset_first r :
  first_changeset_id (ensure_empty_changeset r) = first_changeset_id r.
Proof. unfold ensure_empty_changeset. by destruct (negb _). Qed.

(** The outcome of a pass as a function of the committed register. *)
Lemma collect_changes_unfold image user r :
  partial_update_register image = Some r →
  let committed := ensure_empty_changeset r in
  let last_seen := user_last_changeset_id user in
  BKE_image_partial_update_collect_changes image user =
  if decide (last_seen < first_changeset_id committed) then
    (PARTIAL_UPDATE_NEED_FULL_UPDATE, store_register image committed,
     Build_PartialUpdateUserImpl (last_changeset_id committed) [])
  else if decide (last_seen = last_changeset_id committed) then
    (PARTIAL_UPDATE_NO_CHANGES, store_register image committed,
     Build_PartialUpdateUserImpl last_seen [])
  else
    (PARTIAL_UPDATE_CHANGES_AVAILABLE, store_register image committed,
     Build_PartialUpdateUserImpl (last_changeset_id committed)
       (tiles image ≫= tile_regions committed last_seen)).
Proof.
  intros Hreg. cbn zeta.
  unfold BKE_image_partial_update_collect_changes.
  rewrite (register_ensure_some _ _ Hreg). unfold can_construct.
  cbn [PartialUpdateUserImpl.clear_updated_regions user_last_changeset_id].
  destruct (decide (user_last_changeset_id user
                    < first_changeset_id (ensure_empty_changeset r))) as [Hlt|Hge].
  - rewrite bool_decide_eq_false_2 by lia. done.
  - rewrite bool_decide_eq_true_2 by lia. cbn [negb].
    destruct (decide (user_last_changeset_id user
                      = last_changeset_id (ensure_empty_changeset r))) as [Heq|Hne].
    + rewrite (bool_decide_eq_true_2 _ Heq). done.
    + rewrite (bool_decide_eq_false_2 _ Hne).
      rewrite foldl_collect_changes_of_tile. done.
Qed.

(** Membership in the rectangles of a pass over all tiles. *)
Lemma elem_of_collected_regions (tl : list ImageTile.t) r last_seen reg :
  register_wf r → first_changeset_id r ≤ last_seen →
  reg ∈ tl ≫= tile_regions r last_seen
  ↔ ∃ tile cx cy,
      tile ∈ tl ∧ on_register_grid r cx cy ∧ dirty_since r last_seen cx cy
      ∧ reg = chunk_region (ImageTile.tile_number tile) cx cy.
Proof.
  intros Hwf Hfrom. rewrite list_elem_of_bind. split.
  - intros (tile & Hin & Htile).
    apply elem_of_tile_regions in Hin as (cx & cy & Hg & Hd & ->); [|done|done].
    by exists tile, cx, cy.
  - intros (tile & cx & cy & Htile & Hg & Hd & ->). exists tile. split; [|done].
    apply elem_of_tile_regions; [done | done |]. by exists cx, cy.
Qed.

(** C1.  A collection pass on a well-formed register follows the state
    machine of the specification.  With [committed] the register after the
    pending dirty changeset (if any) has been committed and [last_seen] the
    cursor's id on entry: the result is NEED_FULL_UPDATE when [last_seen] is
    the unknown id or lies before [first_changeset_id]; it is NO_CHANGES when
    [last_seen] equals [last_changeset_id]; in every other case it is
    CHANGES_AVAILABLE and the returned rectangles are, for every tile of the
    image, exactly the one-chunk rectangles of the grid chunks that are dirty
    in a changeset committed since [last_seen]. *)
Theorem C1_collect_changes_state_machine
    (image : Image) (user : PartialUpdateUserImpl) (r : PartialUpdateRegisterImpl) :
  partial_update_register image = Some r →
  register_wf r →
  let committed := ensure_empty_changeset r in
  let last_seen := user_last_changeset_id user in
  partial_update_register (collect_image image user) = Some committed
  ∧ (last_seen = UnknownChangesetID ∨ last_seen < first_changeset_id committed →
     collect_result image user = PARTIAL_UPDATE_NEED_FULL_UPDATE)
  ∧ (last_seen = last_changeset_id committed →
     collect_result image user = PARTIAL_UPDATE_NO_CHANGES)
  ∧ (¬ (last_seen = UnknownChangesetID ∨ last_seen < first_changeset_id committed) →
     last_seen ≠ last_changeset_id committed →
     collect_result image user = PARTIAL_UPDATE_CHANGES_AVAILABLE
     ∧ ∀ reg, reg ∈ updated_regions (collect_user image user)
         ↔ ∃ tile cx cy,
             tile ∈ tiles image
             ∧ on_register_grid committed cx cy
             ∧ dirty_since committed last_seen cx cy
             ∧ reg = chunk_region (ImageTile.tile_number tile) cx cy).
Proof.
  intros Hreg Hwf committed last_seen.
  assert (register_wf committed) as Hcw by by apply ensure_empty_changeset_wf.
  pose proof (reg_first_nonneg _ Hcw) as Hfirst.
  pose proof (reg_ids _ Hcw) as Hids. unfold history_ids_ok in Hids.
  pose proof (Nat2Z.is_nonneg (length (history committed))) as Hlen.
  unfold collect_image, collect_result, collect_user.
  rewrite (collect_changes_unfold _ _ _ Hreg). fold committed last_seen.
  unfold UnknownChangesetID.
  destruct (decide (last_seen < first_changeset_id committed)) as [Hlt|Hge].
  { simpl. split; [done|]. split; [done|]. split; [lia|]. tauto. }
  destruct (decide (last_seen = last_changeset_id committed)) as [Heq|Hne]; simpl.
  { split; [done|]. split; [lia|]. split; [done|]. tauto. }
  split; [done|]. split; [lia|]. split; [done|]. intros _ _. split; [done|].
  intros reg. apply elem_of_collected_regions; [done | lia].
Qed.

(** A register that has seen a resize and one mark, and an image that owns
    it; the cursor below was synchronised when the register was new and
    still holds a rectangle of an earlier cycle. *)
Definition example_register : PartialUpdateRegisterImpl :=
  apply_ops PartialUpdateRegisterImpl.new
    [ OpUpdateResolution (Build_ImBuf 512 512);
      OpMarkRegion (Build_rcti 0 300 0 10) ].

Definition example_image : Image :=
  Build_Image [ImageTile.Build_t 1001] (Some example_register).

Definition example_user : PartialUpdateUserImpl :=
  Build_PartialUpdateUserImpl 0 [chunk_region 1001 1 1].

Lemma example_register_wf : register_wf example_register.
Proof.
  apply apply_ops_wf; [|apply new_register_wf].
  repeat constructor; simpl; lia.
Qed.

Lemma C1_collect_changes_witness :
  let committed := ensure_empty_changeset example_register in
  let last_seen := user_last_changeset_id example_user in
  partial_update_register (collect_image example_image example_user) = Some committed
  ∧ (last_seen = UnknownChangesetID ∨ last_seen < first_changeset_id committed →
     collect_result example_image example_user = PARTIAL_UPDATE_NEED_FULL_UPDATE)
  ∧ (last_seen = last_changeset_id committed →
     collect_result example_image example_user = PARTIAL_UPDATE_NO_CHANGES)
  ∧ (¬ (last_seen = UnknownChangesetID ∨ last_seen < first_changeset_id committed) →
     last_seen ≠ last_changeset_id committed →
     collect_result example_image example_user = PARTIAL_UPDATE_CHANGES_AVAILABLE
     ∧ ∀ reg, reg ∈ updated_regions (collect_user example_image example_user)
         ↔ ∃ tile cx cy,
             tile ∈ tiles example_image
             ∧ on_register_grid committed cx cy
             ∧ dirty_since committed last_seen cx cy
             ∧ reg = chunk_region (ImageTile.tile_number tile) cx cy).
Proof.
  apply (C1_collect_changes_state_machine example_image example_user example_register).
  - reflexivity.
  - exact example_register_wf.
Defined.

(** The cursor's id after a collection pass is the register's last id. *)
Lemma collect_user_last_changeset_id image user r :
  partial_update_register image = Some r →
  user_last_changeset_id (collect_user image user)
  = last_changeset_id (ensure_empty_changeset r)
  ∧ partial_update_register (collect_image image user) = Some (ensure_empty_changeset r).
Proof.
  intros Hreg.
  unfold collect_user, collect_image, BKE_image_partial_update_collect_changes.
  rewrite (register_ensure_some _ _ Hreg).
  destruct (negb _); [done|].
  case_bool_decide as Heq; [done|]. done.
Qed.

(** C9.  For a cursor that can be serviced incrementally (its id is within
    the retained history of the register, between [first_changeset_id] and
    [last_changeset_id]) and a register with pending dirty marks, two
    consecutive collection passes with no operation in between return
    CHANGES_AVAILABLE, then NO_CHANGES; the second pass leaves the register
    as the first one left it. *)
Theorem C9_no_changes_stability
    (image : Image) (user : PartialUpdateUserImpl) (r : PartialUpdateRegisterImpl) :
  partial_update_register image = Some r →
  TileChangeset.has_dirty_chunks (tile_changeset (current_changeset r)) = true →
  can_construct r (user_last_changeset_id user) = true →
  user_last_changeset_id user ≤ last_changeset_id r →
  let image1 := collect_image image user in
  let user1 := collect_user image user in
  collect_result image user = PARTIAL_UPDATE_CHANGES_AVAILABLE
  ∧ collect_result image1 user1 = PARTIAL_UPDATE_NO_CHANGES
  ∧ collect_image image1 user1 = image1
  ∧ partial_update_register image1 = Some (commit_current_changeset r).
Proof.
  intros Hreg Hdirty Hcan Hle. cbn zeta.
  assert (ensure_empty_changeset r = commit_current_changeset r) as Hens.
  { unfold ensure_empty_changeset. by rewrite Hdirty. }
  destruct (collect_user_last_changeset_id image user r Hreg) as [Hid Hreg1].
  rewrite Hens in Hid, Hreg1.
  unfold can_construct in Hcan. apply bool_decide_eq_true in Hcan.
  assert (collect_result image user = PARTIAL_UPDATE_CHANGES_AVAILABLE) as Hfirst.
  { unfold collect_result, BKE_image_partial_update_collect_changes.
    rewrite (register_ensure_some _ _ Hreg), Hens.
    unfold can_construct. cbn [PartialUpdateUserImpl.clear_updated_regions
      user_last_changeset_id commit_current_changeset first_changeset_id
      last_changeset_id].
    rewrite (bool_decide_eq_true_2 _ Hcan). cbn [negb].
    rewrite bool_decide_eq_false_2 by lia. done. }
  split; [done|].
  assert (ensure_empty_changeset (commit_current_changeset r) = commit_current_changeset r)
    as Hens2.
  { unfold ensure_empty_changeset, TileChangeset.has_dirty_chunks.
    cbn [commit_current_changeset current_changeset tile_changeset].
    unfold TileChangeset.reset. by rewrite init_chunks_has_dirty. }
  assert (BKE_image_partial_update_collect_changes
            (collect_image image user) (collect_user image user)
          = (PARTIAL_UPDATE_NO_CHANGES, collect_image image user,
             PartialUpdateUserImpl.clear_updated_regions (collect_user image user)))
    as Hsecond.
  { unfold BKE_image_partial_update_collect_changes at 1.
    rewrite (register_ensure_some _ _ Hreg1), Hens2.
    unfold can_construct.
    cbn [PartialUpdateUserImpl.clear_updated_regions user_last_changeset_id].
    rewrite Hid.
    cbn [commit_current_changeset first_changeset_id last_changeset_id].
    rewrite bool_decide_eq_true_2 by lia. cbn [negb].
    rewrite bool_decide_eq_true_2 by done.
    f_equal. f_equal.
    unfold store_register. destruct (collect_image image user) as [tl reg].
    simpl in *. by rewrite Hreg1. }
  split; [unfold collect_result; by rewrite Hsecond|].
  split; [unfold collect_image at 1; by rewrite Hsecond | done].
Qed.

Lemma C9_no_changes_stability_witness :
  let image1 := collect_image example_image example_user in
  let user1 := collect_user example_image example_user in
  collect_result example_image example_user = PARTIAL_UPDATE_CHANGES_AVAILABLE
  ∧ collect_result image1 user1 = PARTIAL_UPDATE_NO_CHANGES
  ∧ collect_image image1 user1 = image1
  ∧ partial_update_register image1 = Some (commit_current_changeset example_register).
Proof.
  apply (C9_no_changes_stability example_image example_user example_register).
  - reflexivity.
  - reflexivity.
  - reflexivity.
  - vm_compute. discriminate.
Defined.

(** C10.  A collection pass clears the cursor's pending rectangles before
    it looks at anything: the outcome does not depend on what the buffer
    held on entry, so rectangles of an earlier cycle that were never drained
    are gone; and unless the result is CHANGES_AVAILABLE the buffer is empty
    afterwards and [BKE_image_partial_update_get_next_change] answers
    FINISHED at once, touching nothing. *)
Theorem C10_collect_clears_pending_regions (image : Image) (user : PartialUpdateUserImpl) :
  BKE_image_partial_update_collect_changes image user
  = BKE_image_partial_update_collect_changes image
      (PartialUpdateUserImpl.clear_updated_regions user)
  ∧ (collect_result image user = PARTIAL_UPDATE_CHANGES_AVAILABLE
     ∨ (updated_regions (collect_user image user) = []
        ∧ BKE_image_partial_update_get_next_change (collect_user image user)
          = (PARTIAL_UPDATE_ITER_FINISHED, None, collect_user image user))).
Proof.
  split; [done|].
  unfold collect_result, collect_user, BKE_image_partial_update_collect_changes.
  destruct (image_partial_update_register_ensure image) as [r image'].
  destruct (negb _); simpl.
  - right. done.
  - case_bool_decide; simpl; [right; done | left; done].
Qed.

(** Draining returns the rectangles last in, first out, each once, and then
    FINISHED. *)
Lemma get_next_change_snoc id regions reg :
  BKE_image_partial_update_get_next_change
    (Build_PartialUpdateUserImpl id (regions ++ [reg]))
  = (PARTIAL_UPDATE_ITER_CHANGE_AVAILABLE, Some reg,
     Build_PartialUpdateUserImpl id regions).
Proof.
  unfold BKE_image_partial_update_get_next_change. simpl.
  by rewrite last_snoc, removelast_last.
Qed.

(** ** Sessions: one image, one cursor *)

Inductive ApiCall : Type :=
  | CallMarkRegion (image_buffer : ImBuf) (updated_region : rcti)
  | CallMarkFullUpdate
  | CallCollectChanges.

Definition api_call_ok (c : ApiCall) : Prop :=
  match c with
  | CallMarkRegion image_buffer _ => image_buffer_ok image_buffer
  | _ => True
  end.

Definition api_step (s : Image * PartialUpdateUserImpl) (c : ApiCall)
  : Image * PartialUpdateUserImpl :=
  match c with
  | CallMarkRegion image_buffer updated_region =>
      (BKE_image_partial_update_mark_region s.1 image_buffer updated_region, s.2)
  | CallMarkFullUpdate => (BKE_image_partial_update_mark_full_update s.1, s.2)
  | CallCollectChanges => (collect_image s.1 s.2, collect_user s.1 s.2)
  end.

(** The register of an image, created or not, is well formed and the cursor
    is never ahead of it. *)
Definition session_ok (s : Image * PartialUpdateUserImpl) : Prop :=
  let r := (image_partial_update_register_ensure s.1).1 in
  register_wf r ∧ user_last_changeset_id s.2 ≤ last_changeset_id r.

Lemma register_ensure_store image r :
  (image_partial_update_register_ensure (store_register image r)).1 = r.
Proof. done. Qed.

Lemma register_ensure_snd image :
  (image_partial_update_register_ensure image).2
  = store_register image (image_partial_update_register_ensure image).1.
Proof.
  unfold image_partial_update_register_ensure, store_register.
  destruct image as [tl [r|]]; done.
Qed.

Lemma session_ok_new (tl : list ImageTile.t) :
  session_ok (Build_Image tl None, BKE_image_partial_update_create (Build_Image tl None)).
Proof. split; simpl; [apply new_register_wf | done]. Qed.

Lemma api_step_ok s c : api_call_ok c → session_ok s → session_ok (api_step s c).
Proof.
  intros Hc [Hwf Hle]. destruct s as [image user]. simpl in *.
  set (r := (image_partial_update_register_ensure image).1) in *.
  destruct c as [image_buffer rect| |]; simpl.
  - unfold session_ok, BKE_image_partial_update_mark_region. simpl.
    destruct (image_partial_update_register_ensure image) as [r0 image0] eqn:He.
    simpl in r. subst r. simpl.
    split.
    + by apply mark_region_wf, update_resolution_wf.
    + destruct (mark_region_ids (update_resolution r0 image_buffer) rect)
        as (_ & -> & _).
      destruct (update_resolution_ids_step r0 image_buffer (reg_ids _ Hwf))
        as (_ & _ & Hl). lia.
  - unfold session_ok, BKE_image_partial_update_mark_full_update. simpl.
    destruct (image_partial_update_register_ensure image) as [r0 image0] eqn:He.
    simpl in r. subst r. simpl.
    split; [by apply mark_full_update_wf | lia].
  - unfold session_ok, collect_image, collect_user,
      BKE_image_partial_update_collect_changes. simpl.
    destruct (image_partial_update_register_ensure image) as [r0 image0] eqn:He.
    simpl in r. subst r.
    assert (register_wf (ensure_empty_changeset r0)) as Hcw
      by by apply ensure_empty_changeset_wf.
    destruct (negb _); simpl; [split; [done | lia]|].
    case_bool_decide as Heq; simpl; split; try done; lia.
Qed.

Lemma session_ok_reachable (tl : list ImageTile.t) (calls : list ApiCall) :
  Forall api_call_ok calls →
  session_ok
    (foldl api_step
       (Build_Image tl None, BKE_image_partial_update_create (Build_Image tl None))
       calls).
Proof.
  intros Hcalls. generalize (session_ok_new tl).
  generalize (Build_Image tl None, BKE_image_partial_update_create (Build_Image tl None)).
  induction Hcalls as [|c calls Hc _ IH]; intros s Hs; [done|].
  simpl. apply IH. by apply api_step_ok.
Qed.

(** ** The summary flag *)

(** One direction of the summary invariant holds in every well-formed
    changeset, hence in every register reached through the operations: a
    set flag implies a set summary flag. *)
Lemma some_chunk_dirty_has_dirty_chunks tc :
  tile_changeset_wf tc → some_chunk_dirty tc → TileChangeset.has_dirty_chunks tc = true.
Proof.
  intros Hwf [index Hflag]. unfold TileChangeset.has_dirty_chunks.
  destruct (has_dirty_chunks_ tc) eqn:Hd; [done|].
  by rewrite (wf_summary _ Hwf Hd) in Hflag.
Qed.

(** A 512x512 image on which the zero-width rectangle [256,256) x [0,10)
    has been marked. *)
Definition degenerate_mark_register : PartialUpdateRegisterImpl :=
  apply_ops PartialUpdateRegisterImpl.new
    [ OpUpdateResolution (Build_ImBuf 512 512);
      OpMarkRegion (Build_rcti 256 256 0 10) ].

(** C2.  Marking the zero-width rectangle [256,256) x [0,10) on a 512x512
    image leaves every chunk flag false and yet turns [has_dirty_chunks] on:
    the clamped chunk range is x in 1..0, which passes the four early exits
    of [mark_region], and [mark_chunks_dirty] sets the summary flag after
    loops that ran no iteration.  A synchronised cursor is then told
    CHANGES_AVAILABLE and handed no rectangle. *)
Theorem C2_degenerate_mark_sets_summary_without_flag :
  let tc := tile_changeset (current_changeset degenerate_mark_register) in
  TileChangeset.has_dirty_chunks tc = true
  ∧ chunk_dirty_flags_ tc = [false; false; false; false]
  ∧ ¬ some_chunk_dirty tc
  ∧ BKE_image_partial_update_collect_changes
      (Build_Image [ImageTile.Build_t 1001] (Some degenerate_mark_register))
      (Build_PartialUpdateUserImpl 0 [])
    = (PARTIAL_UPDATE_CHANGES_AVAILABLE,
       Build_Image [ImageTile.Build_t 1001]
         (Some (commit_current_changeset degenerate_mark_register)),
       Build_PartialUpdateUserImpl 1 []).
Proof.
  cbn zeta. split; [reflexivity|]. split; [reflexivity|]. split; [|reflexivity].
  intros [index Hflag].
  change (flag_get [false; false; false; false] index = true) in Hflag.
  unfold flag_get in Hflag. case_decide; [|done].
  by destruct (Z.to_nat index) as [|[|[|[|n]]]].
Qed.

(** ** Resolution changes *)

(** With an empty history a resolution change never forces a full update,
    whether or not the current changeset had dirty chunks: the ids stay and
    the pending marks are dropped. *)
Lemma update_resolution_empty_history r image_buffer :
  history r = [] →
  image_width r ≠ x image_buffer ∨ image_height r ≠ y image_buffer →
  first_changeset_id (update_resolution r image_buffer) = first_changeset_id r
  ∧ last_changeset_id (update_resolution r image_buffer) = last_changeset_id r
  ∧ TileChangeset.has_dirty_chunks
      (tile_changeset (current_changeset (update_resolution r image_buffer))) = false.
Proof.
  intros Hh Hne. rewrite update_resolution_unfold.
  rewrite decide_True by done. cbn zeta.
  rewrite bool_decide_eq_true_2 by done. simpl.
  split; [done|]. split; [done|]. apply init_chunks_has_dirty.
Qed.

(** With a non-empty history a resolution change forces a full update. *)
Lemma update_resolution_nonempty_history r image_buffer :
  history r ≠ [] →
  image_width r ≠ x image_buffer ∨ image_height r ≠ y image_buffer →
  first_changeset_id (update_resolution r image_buffer) = last_changeset_id r + 1
  ∧ last_changeset_id (update_resolution r image_buffer) = last_changeset_id r + 1
  ∧ history (update_resolution r image_buffer) = [].
Proof.
  intros Hh Hne. rewrite update_resolution_unfold.
  rewrite decide_True by done. cbn zeta.
  rewrite bool_decide_eq_false_2 by done. done.
Qed.

(** The resize scenario of the specification: once a dirty changeset has
    been committed, a mark at another resolution followed by a collection
    gives NEED_FULL_UPDATE to every cursor that is not ahead of the
    register. *)
Lemma resize_with_history_needs_full_update image r user image_buffer rect :
  partial_update_register image = Some r →
  history r ≠ [] →
  image_width r ≠ x image_buffer ∨ image_height r ≠ y image_buffer →
  user_last_changeset_id user ≤ last_changeset_id r →
  collect_result (BKE_image_partial_update_mark_region image image_buffer rect) user
  = PARTIAL_UPDATE_NEED_FULL_UPDATE.
Proof.
  intros Hreg Hh Hne Hle.
  unfold BKE_image_partial_update_mark_region.
  rewrite (register_ensure_some _ _ Hreg).
  unfold collect_result.
  rewrite (collect_changes_unfold _ _
             (mark_region (update_resolution r image_buffer) rect)) by done.
  cbn zeta. rewrite ensure_empty_changeset_first.
  destruct (mark_region_ids (update_resolution r image_buffer) rect) as (-> & _).
  destruct (update_resolution_nonempty_history r image_buffer Hh Hne) as (-> & _).
  rewrite decide_True by lia. done.
Qed.

(** C4.  A register at 512x512 whose current changeset has dirty chunks
    (chunks (0,0) and (1,0)) and whose history is empty is resized to
    1024x1024: no full update is forced.  The ids are not advanced, the
    pending marks are dropped, and a cursor synchronised before the marks
    is told NO_CHANGES.  [update_resolution] tests [has_dirty_chunks] after
    [init_chunks] has already cleared that flag, so only a non-empty history
    triggers [mark_full_update]. *)
Theorem C4_resize_with_pending_marks_forces_no_full_update :
  let resized := update_resolution example_register (Build_ImBuf 1024 1024) in
  TileChangeset.has_dirty_chunks (tile_changeset (current_changeset example_register)) = true
  ∧ (image_width example_register, image_height example_register) = (512, 512)
  ∧ history example_register = []
  ∧ resized ≠ mark_full_update resized
  ∧ first_changeset_id resized = first_changeset_id example_register
  ∧ last_changeset_id resized = last_changeset_id example_register
  ∧ TileChangeset.has_dirty_chunks (tile_changeset (current_changeset resized)) = false
  ∧ collect_result (Build_Image [ImageTile.Build_t 1001] (Some resized))
      (Build_PartialUpdateUserImpl (last_changeset_id example_register) [])
    = PARTIAL_UPDATE_NO_CHANGES.
Proof.
  cbn zeta. repeat split; try reflexivity.
  intros Heq. apply (f_equal last_changeset_id) in Heq. vm_compute in Heq. discriminate.
Qed.

(** ** Coverage of marked rectangles *)

Lemma chunk_number_for_pixel_upper p c :
  0 ≤ c → p < (c + 1) * CHUNK_SIZE → chunk_number_for_pixel p ≤ c.
Proof.
  unfold CHUNK_SIZE. intros Hc Hp.
  pose proof (Z.div_mod p 256 ltac:(lia)) as Hdm.
  pose proof (Z.mod_pos_bound p 256 ltac:(lia)) as Hm.
  destruct (decide (0 ≤ p)) as [Hnn|Hneg].
  - rewrite chunk_number_for_pixel_nonneg by done. lia.
  - rewrite chunk_number_for_pixel_negative by lia. case_decide; lia.
Qed.

Lemma chunk_number_for_pixel_lower q c :
  0 ≤ c → c * CHUNK_SIZE ≤ q → c ≤ chunk_number_for_pixel q.
Proof.
  unfold CHUNK_SIZE. intros Hc Hq.
  pose proof (Z.div_mod q 256 ltac:(lia)) as Hdm.
  pose proof (Z.mod_pos_bound q 256 ltac:(lia)) as Hm.
  rewrite chunk_number_for_pixel_nonneg by lia. lia.
Qed.

(** The half-open pixel rectangle [rect] meets the pixel extent of chunk
    [(cx, cy)]. *)
Definition overlaps_chunk (rect : rcti) (cx cy : Z) : Prop :=
  xmin rect < (cx + 1) * CHUNK_SIZE ∧ cx * CHUNK_SIZE < xmax rect
  ∧ ymin rect < (cy + 1) * CHUNK_SIZE ∧ cy * CHUNK_SIZE < ymax rect.

(** Every chunk of the grid that the rectangle meets is marked. *)
Lemma mark_region_covers_grid r rect cx cy :
  register_wf r → on_register_grid r cx cy → overlaps_chunk rect cx cy →
  let tc := tile_changeset (current_changeset (mark_region r rect)) in
  TileChangeset.has_dirty_chunks tc = true
  ∧ TileChangeset.is_chunk_dirty tc cx cy = true.
Proof.
  intros Hwf [Hgx Hgy] (Hx1 & Hx2 & Hy1 & Hy2).
  destruct (reg_current _ Hwf) as [Hc [Hxl Hyl]].
  rewrite <- Hxl in Hgx. rewrite <- Hyl in Hgy.
  pose proof (chunk_number_for_pixel_upper (xmin rect) cx ltac:(lia) Hx1).
  pose proof (chunk_number_for_pixel_upper (ymin rect) cy ltac:(lia) Hy1).
  pose proof (chunk_number_for_pixel_lower (xmax rect - 1) cx ltac:(lia) ltac:(lia)).
  pose proof (chunk_number_for_pixel_lower (ymax rect - 1) cy ltac:(lia) ltac:(lia)).
  cbn zeta. unfold mark_region, max_ii, min_ii.
  rewrite !decide_False by lia.
  cbn [with_current current_changeset tile_changeset]. split; [done|].
  unfold TileChangeset.is_chunk_dirty.
  apply mark_chunks_dirty_flags. left. split.
  - exists cx, cy. cbn [TileChangeset.mark_chunks_dirty chunk_x_len_]. lia.
  - cbn [TileChangeset.mark_chunks_dirty chunk_x_len_]. by apply on_grid_index.
Qed.

(** And the next collection hands its rectangle, for every tile, to every
    cursor that can be serviced incrementally. *)
Lemma mark_then_collect_covers_grid image r user image_buffer rect cx cy tile :
  partial_update_register image = Some r → register_wf r →
  x image_buffer = image_width r → y image_buffer = image_height r →
  first_changeset_id r ≤ user_last_changeset_id user ≤ last_changeset_id r →
  on_register_grid r cx cy → overlaps_chunk rect cx cy → tile ∈ tiles image →
  let marked := BKE_image_partial_update_mark_region image image_buffer rect in
  collect_result marked user = PARTIAL_UPDATE_CHANGES_AVAILABLE
  ∧ chunk_region (ImageTile.tile_number tile) cx cy
    ∈ updated_regions (collect_user marked user).
Proof.
  intros Hreg Hwf Hbx Hby Hid Hgrid Hover Htile. cbn zeta.
  unfold BKE_image_partial_update_mark_region.
  rewrite (register_ensure_some _ _ Hreg).
  assert (update_resolution r image_buffer = r) as ->.
  { unfold update_resolution. rewrite decide_False; [done|]. lia. }
  destruct (mark_region_covers_grid r rect cx cy Hwf Hgrid Hover) as [Hhas Hdirty].
  set (marked := mark_region r rect) in *.
  assert (register_wf marked) as Hmw by by apply mark_region_wf.
  destruct (mark_region_ids r rect) as (Hf & Hl & Hh & Hw & Hht). fold marked in Hf, Hl, Hh, Hw, Hht.
  assert (ensure_empty_changeset marked = commit_current_changeset marked) as Hens.
  { unfold ensure_empty_changeset. by rewrite Hhas. }
  unfold collect_result, collect_user.
  rewrite (collect_changes_unfold _ _ marked) by done. cbn zeta. rewrite Hens.
  cbn [commit_current_changeset first_changeset_id last_changeset_id].
  rewrite decide_False by lia. rewrite decide_False by lia.
  split; [done|]. cbn [snd updated_regions store_register tiles].
  apply elem_of_collected_regions.
  - by apply commit_current_changeset_wf.
  - simpl. lia.
  - exists tile, cx, cy. split; [done|]. split.
    { unfold on_register_grid. simpl. by rewrite Hw, Hht. }
    split; [|done].
    exists (length (history marked)), (current_changeset marked).
    split; [|split].
    + simpl. by rewrite lookup_app_r, Nat.sub_diag.
    + simpl. pose proof (reg_ids _ Hmw) as Hids. unfold history_ids_ok in Hids. lia.
    + done.
Qed.

(** C6.  On a 300x300 image the grid is 1x1 ([300 / 256] truncates), so the
    pixels 256..299 of each axis belong to no tracked chunk.  After a first
    mark has set the resolution and the cursor has synchronised, marking
    [260,290) x [0,10), which lies inside the image, marks nothing, and the
    next collection answers NO_CHANGES with no rectangle: the chunk that
    holds the marked pixels is missed. *)
Theorem C6_remainder_pixels_are_not_tracked :
  let image0 := Build_Image [ImageTile.Build_t 1001] None in
  let image_buffer := Build_ImBuf 300 300 in
  let image1 :=
    BKE_image_partial_update_mark_region image0 image_buffer (Build_rcti 0 10 0 10) in
  let user1 := collect_user image1 (BKE_image_partial_update_create image1) in
  let image2 := collect_image image1 (BKE_image_partial_update_create image1) in
  let rect := Build_rcti 260 290 0 10 in
  let image3 := BKE_image_partial_update_mark_region image2 image_buffer rect in
  (0 ≤ xmin rect ∧ xmax rect ≤ x image_buffer ∧ 0 ≤ ymin rect ∧ ymax rect ≤ y image_buffer)
  ∧ overlaps_chunk rect 1 0
  ∧ image3 = image2
  ∧ BKE_image_partial_update_collect_changes image3 user1
    = (PARTIAL_UPDATE_NO_CHANGES, image3, user1)
  ∧ updated_regions user1 = [].
Proof. cbn zeta. repeat split; try reflexivity; try (vm_compute; discriminate). Qed.

(** ** The 512x512 scenario *)

Definition register_of (image : Image) : PartialUpdateRegisterImpl :=
  (image_partial_update_register_ensure image).1.

Definition scenario_image (tn : TileNumber) : Image :=
  Build_Image [ImageTile.Build_t tn] None.
Definition scenario_buffer : ImBuf := Build_ImBuf 512 512.
Definition scenario_rect : rcti := Build_rcti 0 300 0 10.

(** C5, counterexample.  A cursor fresh from
    [BKE_image_partial_update_create] holds the unknown id: its first
    collection after the mark is NEED_FULL_UPDATE and returns no rectangle,
    so not the two chunk rectangles. *)
Lemma C5_fresh_cursor_counterexample :
  let image :=
    BKE_image_partial_update_mark_region (scenario_image 1001)
      scenario_buffer scenario_rect in
  let fresh := BKE_image_partial_update_create image in
  collect_result image fresh = PARTIAL_UPDATE_NEED_FULL_UPDATE
  ∧ updated_regions (collect_user image fresh) = []
  ∧ ¬ (updated_regions (collect_user image fresh)
       ≡ₚ [chunk_region 1001 0 0; chunk_region 1001 1 0]).
Proof.
  cbn zeta. split; [reflexivity|]. split; [reflexivity|].
  intros Hperm. apply Permutation_length in Hperm. vm_compute in Hperm. discriminate.
Qed.

(** C5 (amended).  On a 512x512 image (a 2x2 grid of 256-pixel chunks),
    marking [0,300) x [0,10) sets exactly the flags of chunks (0,0) and
    (1,0).  A cursor that collected before the mark is then told
    CHANGES_AVAILABLE and receives exactly the rectangles of these two
    chunks, [0,256) x [0,256) and [256,512) x [0,256); a cursor that never
    collected is told NEED_FULL_UPDATE and receives no rectangle. *)
Theorem C5_scenario_512_mark_300_by_10 (tn : TileNumber) :
  let image0 := scenario_image tn in
  let fresh := BKE_image_partial_update_create image0 in
  let synced := collect_user image0 fresh in
  let image1 :=
    BKE_image_partial_update_mark_region (collect_image image0 fresh)
      scenario_buffer scenario_rect in
  let tc := tile_changeset (current_changeset (register_of image1)) in
  (chunk_x_len_ tc, chunk_y_len_ tc) = (2, 2)
  ∧ (TileChangeset.is_chunk_dirty tc 0 0, TileChangeset.is_chunk_dirty tc 1 0,
     TileChangeset.is_chunk_dirty tc 0 1, TileChangeset.is_chunk_dirty tc 1 1)
    = (true, true, false, false)
  ∧ collect_result image1 synced = PARTIAL_UPDATE_CHANGES_AVAILABLE
  ∧ updated_regions (collect_user image1 synced)
    = [ Build_PartialUpdateRegion tn (Build_rcti 0 256 0 256);
        Build_PartialUpdateRegion tn (Build_rcti 256 512 0 256) ]
  ∧ collect_result image1 fresh = PARTIAL_UPDATE_NEED_FULL_UPDATE
  ∧ updated_regions (collect_user image1 fresh) = [].
Proof. cbn zeta. repeat split; reflexivity. Qed.

(** * Further properties of the code *)

(** ** The chunk of a pixel: sign and order *)

Lemma chunk_number_for_pixel_negative_iff p :
  chunk_number_for_pixel p < 0 ↔ p < 0.
Proof.
  pose proof (Z.div_mod p 256 ltac:(lia)) as Hdm.
  pose proof (Z.mod_pos_bound p 256 ltac:(lia)) as Hm.
  destruct (decide (0 ≤ p)) as [Hnn|Hneg].
  - rewrite chunk_number_for_pixel_nonneg by done. lia.
  - rewrite chunk_number_for_pixel_negative by lia. case_decide; lia.
Qed.

(** X1.  [chunk_number_for_pixel] never decreases when the pixel coordinate
    grows, is negative exactly on negative coordinates, and on a
    non-negative coordinate gives the chunk whose pixel extent contains it.
    (This is what the clamping in [mark_region] relies on; the exact value
    on negative coordinates is irrelevant there.) *)
Theorem X1_chunk_number_for_pixel_order (p q : Z) :
  p ≤ q →
  chunk_number_for_pixel p ≤ chunk_number_for_pixel q
  ∧ (chunk_number_for_pixel p < 0 ↔ p < 0)
  ∧ (0 ≤ p →
     chunk_number_for_pixel p * CHUNK_SIZE ≤ p
       < (chunk_number_for_pixel p + 1) * CHUNK_SIZE).
Proof.
  intros Hpq. split; [|split].
  - pose proof (Z.div_mod p 256 ltac:(lia)) as Hdp.
    pose proof (Z.mod_pos_bound p 256 ltac:(lia)) as Hmp.
    pose proof (Z.div_mod q 256 ltac:(lia)) as Hdq.
    pose proof (Z.mod_pos_bound q 256 ltac:(lia)) as Hmq.
    destruct (decide (0 ≤ p)) as [Hp|Hp]; destruct (decide (0 ≤ q)) as [Hq|Hq].
    + rewrite !chunk_number_for_pixel_nonneg by done. lia.
    + lia.
    + rewrite (chunk_number_for_pixel_nonneg q) by done.
      rewrite chunk_number_for_pixel_negative by lia. case_decide; lia.
    + rewrite !chunk_number_for_pixel_negative by lia. repeat case_decide; lia.
  - apply chunk_number_for_pixel_negative_iff.
  - intros Hp. rewrite chunk_number_for_pixel_nonneg by done. unfold CHUNK_SIZE.
    pose proof (Z.div_mod p 256 ltac:(lia)) as Hdp.
    pose proof (Z.mod_pos_bound p 256 ltac:(lia)) as Hmp. lia.
Qed.

Lemma X1_chunk_number_for_pixel_order_witness :
  chunk_number_for_pixel (-257) ≤ chunk_number_for_pixel 300
  ∧ (chunk_number_for_pixel (-257) < 0 ↔ -257 < 0)
  ∧ (0 ≤ -257 →
     chunk_number_for_pixel (-257) * CHUNK_SIZE ≤ -257
       < (chunk_number_for_pixel (-257) + 1) * CHUNK_SIZE).
Proof. apply (X1_chunk_number_for_pixel_order (-257) 300). lia. Defined.

(** ** What a mark changes *)





(** ** Algebra of tile changesets *)

Lemma flags_ext (l1 l2 : list bool) :
  length l1 = length l2 → (∀ i, flag_get l1 i = flag_get l2 i) → l1 = l2.
Proof.
  intros Hlen Hget. apply (list_eq_same_length l1 l2 (length l1)); [done | done |].
  intros i b1 b2 Hi H1 H2. specialize (Hget (Z.of_nat i)).
  unfold flag_get in Hget. rewrite !decide_True in Hget by lia.
  rewrite Nat2Z.id, H1, H2 in Hget. done.
Qed.

Lemma tile_changeset_ext (a b : TileChangeset) :
  chunk_dirty_flags_ a = chunk_dirty_flags_ b →
  has_dirty_chunks_ a = has_dirty_chunks_ b →
  chunk_x_len_ a = chunk_x_len_ b → chunk_y_len_ a = chunk_y_len_ b → a = b.
Proof. destruct a, b. simpl. by intros -> -> -> ->. Qed.

Lemma wf_same_grid_length a b :
  tile_changeset_wf a → tile_changeset_wf b →
  chunk_x_len_ a = chunk_x_len_ b → chunk_y_len_ a = chunk_y_len_ b →
  length (chunk_dirty_flags_ b) = length (chunk_dirty_flags_ a).
Proof.
  intros Ha Hb Hx Hy. apply Nat2Z.inj.
  rewrite (wf_flags_len _ Ha), (wf_flags_len _ Hb). by rewrite Hx, Hy.
Qed.

(** X4.  On well-formed changesets of one grid, [merge] is commutative and
    associative, and merging a changeset that was just reset changes
    nothing: the changeset built from a stretch of history does not depend
    on the order in which its entries are merged. *)
Theorem X4_merge_commutative_associative (a b c : TileChangeset) :
  tile_changeset_wf a → tile_changeset_wf b → tile_changeset_wf c →
  chunk_x_len_ a = chunk_x_len_ b → chunk_y_len_ a = chunk_y_len_ b →
  chunk_x_len_ b = chunk_x_len_ c → chunk_y_len_ b = chunk_y_len_ c →
  TileChangeset.merge a b = TileChangeset.merge b a
  ∧ TileChangeset.merge (TileChangeset.merge a b) c
    = TileChangeset.merge a (TileChangeset.merge b c)
  ∧ TileChangeset.merge a (TileChangeset.reset b) = a.
Proof.
  intros Ha Hb Hc Hxab Hyab Hxbc Hybc.
  pose proof (wf_same_grid_length a b Ha Hb Hxab Hyab) as Hlab.
  pose proof (wf_same_grid_length b c Hb Hc Hxbc Hybc) as Hlbc.
  pose proof (wf_flags_len _ Ha) as Hla.
  pose proof (wf_flags_len _ Hb) as Hlb.
  split; [|split].
  - apply tile_changeset_ext; [|apply orb_comm|done|done].
    apply flags_ext; [by rewrite !merge_length|]. intros i.
    rewrite !merge_flags by done. apply orb_comm.
  - apply tile_changeset_ext; [|simpl; by rewrite orb_assoc|done|done].
    apply flags_ext; [by rewrite !merge_length|]. intros i.
    rewrite (merge_flags (TileChangeset.merge a b) c);
      [|by rewrite merge_length|by rewrite merge_length, Hlbc].
    rewrite (merge_flags a (TileChangeset.merge b c));
      [|done|by rewrite merge_length].
    rewrite !merge_flags by done. by rewrite orb_assoc.
  - assert (tile_changeset_wf (TileChangeset.reset b)) as Hrb by by apply reset_wf.
    apply tile_changeset_ext; [| |done|done].
    + apply flags_ext; [by rewrite merge_length|]. intros i.
      rewrite merge_flags; [|done|].
      * unfold TileChangeset.reset.
        rewrite init_chunks_flags by apply Hb. apply orb_false_r.
      * unfold TileChangeset.reset. rewrite init_chunks_length.
        apply Nat2Z.inj. rewrite Hla, Hxab, Hyab.
        pose proof (wf_x_len _ Hb). pose proof (wf_y_len _ Hb). nia.
    + cbn [TileChangeset.merge has_dirty_chunks_].
      unfold TileChangeset.reset. rewrite init_chunks_has_dirty. apply orb_false_r.
Qed.

Definition example_changeset_c : TileChangeset :=
  Build_TileChangeset [false; true; false; true] true 2 2.

Lemma example_changeset_c_wf : tile_changeset_wf example_changeset_c.
Proof. split; simpl; [lia | lia | lia | discriminate]. Defined.

Lemma X4_merge_witness :
  TileChangeset.merge example_changeset_a example_changeset_b
  = TileChangeset.merge example_changeset_b example_changeset_a
  ∧ TileChangeset.merge (TileChangeset.merge example_changeset_a example_changeset_b)
      example_changeset_c
    = TileChangeset.merge example_changeset_a
        (TileChangeset.merge example_changeset_b example_changeset_c)
  ∧ TileChangeset.merge example_changeset_a (TileChangeset.reset example_changeset_b)
    = example_changeset_a.
Proof.
  apply (X4_merge_commutative_associative
           example_changeset_a example_changeset_b example_changeset_c).
  - exact example_changeset_a_wf.
  - exact example_changeset_b_wf.
  - exact example_changeset_c_wf.
  - reflexivity.
  - reflexivity.
  - reflexivity.
  - reflexivity.
Defined.

(** X5.  Whatever a well-formed changeset held and whatever the old and the
    new grid are, [init_chunks] (and so [reset]) returns the clean changeset
    of the new grid: every flag false, summary flag off.  No dirty flag
    survives a resize. *)
Theorem X5_init_chunks_gives_clean_changeset (tc : TileChangeset) (xl yl : Z) :
  tile_changeset_wf tc →
  TileChangeset.init_chunks tc xl yl
  = Build_TileChangeset (replicate (Z.to_nat (xl * yl)) false) false xl yl
  ∧ TileChangeset.reset tc
    = Build_TileChangeset
        (replicate (length (chunk_dirty_flags_ tc)) false) false
        (chunk_x_len_ tc) (chunk_y_len_ tc).
Proof.
  intros Hwf.
  assert (∀ xl yl, TileChangeset.init_chunks tc xl yl
          = Build_TileChangeset (replicate (Z.to_nat (xl * yl)) false) false xl yl) as Hinit.
  { intros xl' yl'. apply tile_changeset_ext; cbn [chunk_dirty_flags_
      has_dirty_chunks_ chunk_x_len_ chunk_y_len_].
    - apply flags_ext; [by rewrite init_chunks_length, length_replicate|]. intros i.
      rewrite init_chunks_flags by apply Hwf.
      unfold flag_get. case_decide; [|done].
      destruct (replicate _ _ !! _) as [b|] eqn:Hl; [|done].
      apply lookup_replicate_1 in Hl as [-> _]. done.
    - apply init_chunks_has_dirty.
    - apply init_chunks_x_len.
    - apply init_chunks_y_len. }
  split; [apply Hinit|].
  unfold TileChangeset.reset. rewrite Hinit. f_equal. f_equal.
  rewrite <- (wf_flags_len _ Hwf). apply Nat2Z.id.
Qed.

Lemma X5_init_chunks_witness :
  TileChangeset.init_chunks example_changeset_a 3 1
  = Build_TileChangeset (replicate (Z.to_nat (3 * 1)) false) false 3 1
  ∧ TileChangeset.reset example_changeset_a
    = Build_TileChangeset
        (replicate (length (chunk_dirty_flags_ example_changeset_a)) false) false
        (chunk_x_len_ example_changeset_a) (chunk_y_len_ example_changeset_a).
Proof.
  apply (X5_init_chunks_gives_clean_changeset example_changeset_a 3 1).
  exact example_changeset_a_wf.
Defined.

(** ** Resolution changes compose *)

(** X6.  [update_resolution] caches the size of the buffer it is given, is
    the identity when that size is the cached one, and is idempotent:
    announcing the same buffer twice in a row does nothing the second time
    (no second full update, no id advanced). *)
Theorem X6_update_resolution_idempotent
    (r : PartialUpdateRegisterImpl) (image_buffer : ImBuf) :
  image_width (update_resolution r image_buffer) = x image_buffer
  ∧ image_height (update_resolution r image_buffer) = y image_buffer
  ∧ update_resolution (update_resolution r image_buffer) image_buffer
    = update_resolution r image_buffer
  ∧ (update_resolution r
       (Build_ImBuf (image_width r) (image_height r)) = r).
Proof.
  assert (image_width (update_resolution r image_buffer) = x image_buffer
          ∧ image_height (update_resolution r image_buffer) = y image_buffer) as [Hw Hh].
  { rewrite update_resolution_unfold. case_decide as Hd; cbn zeta.
    - by case_bool_decide.
    - split; [destruct (decide (image_width r = x image_buffer)); tauto
             | destruct (decide (image_height r = y image_buffer)); tauto]. }
  split; [done|]. split; [done|]. split.
  - unfold update_resolution at 1. rewrite decide_False; [done|]. rewrite Hw, Hh. tauto.
  - unfold update_resolution. rewrite decide_False; [done|]. simpl. tauto.
Qed.

(** ** What a collection returns *)

Lemma ensure_empty_changeset_size r :
  image_width (ensure_empty_changeset r) = image_width r
  ∧ image_height (ensure_empty_changeset r) = image_height r.
Proof. unfold ensure_empty_changeset. by destruct (negb _). Qed.

Lemma ensure_empty_changeset_clean r :
  TileChangeset.has_dirty_chunks
    (tile_changeset (current_changeset (ensure_empty_changeset r))) = false.
Proof.
  unfold ensure_empty_changeset.
  destruct (TileChangeset.has_dirty_chunks (tile_changeset (current_changeset r)))
    eqn:Hd; simpl; [|done].
  unfold TileChangeset.reset, TileChangeset.has_dirty_chunks.
  apply init_chunks_has_dirty.
Qed.

Lemma ensure_empty_changeset_idemp r :
  ensure_empty_changeset (ensure_empty_changeset r) = ensure_empty_changeset r.
Proof.
  unfold ensure_empty_changeset at 1. by rewrite ensure_empty_changeset_clean.
Qed.

Lemma chunk_region_inj tn tn' cx cy cx' cy' :
  chunk_region tn cx cy = chunk_region tn' cx' cy' → tn = tn' ∧ cx = cx' ∧ cy = cy'.
Proof.
  unfold chunk_region, CHUNK_SIZE. intros Heq. inversion Heq. lia.
Qed.




(** The rectangles a pass leaves in the cursor, for an image that owns a
    well-formed register. *)
Lemma elem_of_updated_regions image user r reg :
  partial_update_register image = Some r → register_wf r →
  reg ∈ updated_regions (collect_user image user) →
  first_changeset_id (ensure_empty_changeset r) ≤ user_last_changeset_id user
  ∧ updated_regions (collect_user image user)
    = tiles image ≫= tile_regions (ensure_empty_changeset r) (user_last_changeset_id user).
Proof.
  intros Hreg Hwf. unfold collect_user.
  rewrite (collect_changes_unfold _ _ _ Hreg). cbn zeta.
  repeat case_decide; simpl; intros Hin;
    [by apply elem_of_nil in Hin | by apply elem_of_nil in Hin | split; [lia | done]].
Qed.

(** X7.  Every rectangle a collection returns belongs to a tile of the
    image, is the pixel extent of one chunk (256 pixels wide and high, its
    corner on a multiple of 256) and lies inside the image. *)
Theorem X7_collected_regions_are_chunks_inside_the_image
    (image : Image) (user : PartialUpdateUserImpl) (r : PartialUpdateRegisterImpl)
    (reg : PartialUpdateRegion) :
  partial_update_register image = Some r → register_wf r →
  reg ∈ updated_regions (collect_user image user) →
  (∃ tile, tile ∈ tiles image ∧ tile_number reg = ImageTile.tile_number tile)
  ∧ (∃ cx cy, region reg
              = Build_rcti (cx * 256) (cx * 256 + 256) (cy * 256) (cy * 256 + 256))
  ∧ 0 ≤ xmin (region reg) ∧ xmax (region reg) ≤ image_width r
  ∧ 0 ≤ ymin (region reg) ∧ ymax (region reg) ≤ image_height r.
Proof.
  intros Hreg Hwf Hin.
  destruct (elem_of_updated_regions _ _ _ _ Hreg Hwf Hin) as [Hfirst Heq].
  rewrite Heq in Hin.
  apply elem_of_collected_regions in Hin
    as (tile & cx & cy & Htile & [Hgx Hgy] & _ & ->);
    [|by apply ensure_empty_changeset_wf | done].
  destruct (ensure_empty_changeset_size r) as [Hw Hh]. rewrite Hw in Hgx. rewrite Hh in Hgy.
  pose proof (reg_width _ Hwf) as Hw0. pose proof (reg_height _ Hwf) as Hh0.
  unfold CHUNK_SIZE in *.
  rewrite Z.quot_div_nonneg in Hgx, Hgy by lia.
  pose proof (Z.div_mod (image_width r) 256 ltac:(lia)).
  pose proof (Z.mod_pos_bound (image_width r) 256 ltac:(lia)).
  pose proof (Z.div_mod (image_height r) 256 ltac:(lia)).
  pose proof (Z.mod_pos_bound (image_height r) 256 ltac:(lia)).
  split; [by exists tile|]. split.
  { exists cx, cy. unfold chunk_region, CHUNK_SIZE. simpl. f_equal; lia. }
  unfold chunk_region, CHUNK_SIZE. simpl. lia.
Qed.



(** X9.  Marks are not kept per tile: the tile number handed to
    [changed_tile_chunks_since] is unused, so whenever a collection returns
    the rectangle of a chunk for one tile of the image it returns the
    rectangle of the same chunk for every other tile. *)
Theorem X9_every_tile_gets_the_same_chunks
    (image : Image) (user : PartialUpdateUserImpl) (r : PartialUpdateRegisterImpl)
    (tile1 tile2 : ImageTile.t) (cx cy : Z) :
  partial_update_register image = Some r → register_wf r →
  tile2 ∈ tiles image →
  chunk_region (ImageTile.tile_number tile1) cx cy
    ∈ updated_regions (collect_user image user) →
  chunk_region (ImageTile.tile_number tile2) cx cy
    ∈ updated_regions (collect_user image user).
Proof.
  intros Hreg Hwf Ht2 Hin.
  destruct (elem_of_updated_regions _ _ _ _ Hreg Hwf Hin) as [Hfirst Heq].
  rewrite Heq in *.
  assert (register_wf (ensure_empty_changeset r)) as Hcw
    by by apply ensure_empty_changeset_wf.
  apply elem_of_collected_regions in Hin
    as (tile & cx' & cy' & _ & Hg & Hd & Hreg'); [|done|done].
  apply chunk_region_inj in Hreg' as (_ & -> & ->).
  apply elem_of_collected_regions; [done | done |]. by exists tile2, cx', cy'.
Qed.

Lemma X7_collected_regions_witness :
  (∃ tile, tile ∈ tiles example_image
           ∧ tile_number (chunk_region 1001 1 0) = ImageTile.tile_number tile)
  ∧ (∃ cx cy, region (chunk_region 1001 1 0)
              = Build_rcti (cx * 256) (cx * 256 + 256) (cy * 256) (cy * 256 + 256))
  ∧ 0 ≤ xmin (region (chunk_region 1001 1 0))
  ∧ xmax (region (chunk_region 1001 1 0)) ≤ image_width example_register
  ∧ 0 ≤ ymin (region (chunk_region 1001 1 0))
  ∧ ymax (region (chunk_region 1001 1 0)) ≤ image_height example_register.
Proof.
  apply (X7_collected_regions_are_chunks_inside_the_image
           example_image example_user example_register (chunk_region 1001 1 0)).
  - reflexivity.
  - exact example_register_wf.
  - vm_compute. right. left.
Defined.

(** An image with two tiles that owns [example_register]. *)
Definition example_image_two_tiles : Image :=
  Build_Image [ImageTile.Build_t 1001; ImageTile.Build_t 1002] (Some example_register).

Lemma X9_every_tile_witness :
  chunk_region (ImageTile.tile_number (ImageTile.Build_t 1002)) 1 0
    ∈ updated_regions (collect_user example_image_two_tiles example_user).
Proof.
  apply (X9_every_tile_gets_the_same_chunks example_image_two_tiles example_user
           example_register (ImageTile.Build_t 1001) (ImageTile.Build_t 1002) 1 0).
  - reflexivity.
  - exact example_register_wf.
  - right. left.
  - vm_compute. right. left.
Defined.

(** ** How collections compose *)

(** A pass sees the image only through its tiles and its register, created
    or not. *)
Lemma collect_changes_any image user :
  BKE_image_partial_update_collect_changes image user
  = BKE_image_partial_update_collect_changes
      (store_register image (register_of image)) user.
Proof.
  unfold BKE_image_partial_update_collect_changes, register_of,
    image_partial_update_register_ensure, store_register.
  destruct image as [tl [r|]]; done.
Qed.

Lemma collect_image_eq image user r :
  partial_update_register image = Some r →
  collect_image image user = store_register image (ensure_empty_changeset r).
Proof.
  intros Hreg. unfold collect_image.
  rewrite (collect_changes_unfold _ _ _ Hreg). cbn zeta. by repeat case_decide.
Qed.

Lemma store_register_same image r :
  partial_update_register image = Some r → store_register image r = image.
Proof. destruct image as [tl reg]. simpl. by intros ->. Qed.



(** X11.  Whatever a collection returned, collecting again at once returns
    NO_CHANGES and changes neither the image nor the cursor's id; it does
    empty the cursor's buffer, so rectangles not drained by then are lost. *)
Theorem X11_collecting_again_gives_no_changes
    (image : Image) (user : PartialUpdateUserImpl) (r : PartialUpdateRegisterImpl) :
  partial_update_register image = Some r → register_wf r →
  BKE_image_partial_update_collect_changes
    (collect_image image user) (collect_user image user)
  = (PARTIAL_UPDATE_NO_CHANGES, collect_image image user,
     Build_PartialUpdateUserImpl (user_last_changeset_id (collect_user image user)) []).
Proof.
  intros Hreg Hwf.
  destruct (collect_user_last_changeset_id image user r Hreg) as [Hid Hreg1].
  assert (register_wf (ensure_empty_changeset r)) as Hcw
    by by apply ensure_empty_changeset_wf.
  pose proof (reg_ids _ Hcw) as Hids. unfold history_ids_ok in Hids.
  pose proof (Nat2Z.is_nonneg (length (history (ensure_empty_changeset r)))) as Hlen.
  rewrite (collect_changes_unfold _ _ _ Hreg1). cbn zeta.
  rewrite ensure_empty_changeset_idemp, Hid.
  rewrite decide_False by lia. rewrite decide_True by done.
  by rewrite (store_register_same _ _ Hreg1).
Qed.

Lemma X11_collecting_again_witness :
  BKE_image_partial_update_collect_changes
    (collect_image example_image example_user) (collect_user example_image example_user)
  = (PARTIAL_UPDATE_NO_CHANGES, collect_image example_image example_user,
     Build_PartialUpdateUserImpl
       (user_last_changeset_id (collect_user example_image example_user)) []).
Proof.
  apply (X11_collecting_again_gives_no_changes example_image example_user example_register).
  - reflexivity.
  - exact example_register_wf.
Defined.

(** X12.  Cursors do not disturb each other: what a cursor is told and
    handed, and the image it leaves behind, are the same whether or not
    another cursor collected just before it. *)
Theorem X12_cursors_are_independent (image : Image) (user1 user2 : PartialUpdateUserImpl) :
  BKE_image_partial_update_collect_changes (collect_image image user1) user2
  = BKE_image_partial_update_collect_changes image user2.
Proof.
  rewrite (collect_changes_any image user2).
  unfold collect_image at 1. rewrite (collect_changes_any image user1).
  fold (collect_image (store_register image (register_of image)) user1).
  set (r := register_of image). set (img := store_register image r).
  assert (partial_update_register img = Some r) as Hreg by done.
  rewrite (collect_image_eq img user1 r Hreg).
  rewrite (collect_changes_unfold (store_register img (ensure_empty_changeset r)) user2
             (ensure_empty_changeset r)) by done.
  rewrite (collect_changes_unfold img user2 r Hreg). cbn zeta.
  by rewrite ensure_empty_changeset_idemp.
Qed.

(** X13.  After [BKE_image_partial_update_mark_full_update] every cursor
    that is not ahead of the register is told NEED_FULL_UPDATE by its next
    collection, receives no rectangle and is moved to the new id; the
    collection itself leaves the image as the full update left it. *)
Theorem X13_full_update_reaches_every_cursor
    (image : Image) (user : PartialUpdateUserImpl) :
  user_last_changeset_id user ≤ last_changeset_id (register_of image) →
  BKE_image_partial_update_collect_changes
    (BKE_image_partial_update_mark_full_update image) user
  = (PARTIAL_UPDATE_NEED_FULL_UPDATE,
     BKE_image_partial_update_mark_full_update image,
     Build_PartialUpdateUserImpl (last_changeset_id (register_of image) + 1) []).
Proof.
  intros Hle. unfold BKE_image_partial_update_mark_full_update, register_of in *.
  destruct (image_partial_update_register_ensure image) as [r image'].
  simpl in Hle.
  assert (ensure_empty_changeset (mark_full_update r) = mark_full_update r) as Hens.
  { unfold ensure_empty_changeset, TileChangeset.has_dirty_chunks.
    cbn [mark_full_update current_changeset tile_changeset].
    unfold TileChangeset.reset. by rewrite init_chunks_has_dirty. }
  rewrite (collect_changes_unfold _ _ (mark_full_update r)) by done. cbn zeta.
  rewrite Hens. cbn [mark_full_update first_changeset_id last_changeset_id].
  rewrite decide_True by lia. done.
Qed.

Lemma X13_full_update_witness :
  BKE_image_partial_update_collect_changes
    (BKE_image_partial_update_mark_full_update example_image) example_user
  = (PARTIAL_UPDATE_NEED_FULL_UPDATE,
     BKE_image_partial_update_mark_full_update example_image,
     Build_PartialUpdateUserImpl (last_changeset_id (register_of example_image) + 1) []).
Proof.
  apply (X13_full_update_reaches_every_cursor example_image example_user).
  vm_compute. discriminate.
Defined.

(** ** No change is lost to a slow cursor *)

(** Chunk [(cx, cy)] is dirty in the current changeset or in a changeset
    committed since [from_changeset]. *)
Definition pending_or_dirty_since (r : PartialUpdateRegisterImpl)
    (from_changeset : ChangesetID) (cx cy : Z) : Prop :=
  TileChangeset.is_chunk_dirty (tile_changeset (current_changeset r)) cx cy = true
  ∨ dirty_since r from_changeset cx cy.

(** The operations that neither clear the history nor change the grid. *)
Definition op_keeps_history (op : RegisterOp) : Prop :=
  match op with
  | OpMarkRegion _ | OpCommitCurrentChangeset | OpEnsureEmptyChangeset => True
  | OpMarkFullUpdate | OpUpdateResolution _ => False
  end.

Lemma mark_region_keeps_dirty r rect cx cy :
  TileChangeset.is_chunk_dirty (tile_changeset (current_changeset r)) cx cy = true →
  TileChangeset.is_chunk_dirty
    (tile_changeset (current_changeset (mark_region r rect))) cx cy = true.
Proof.
  intros Hbefore. unfold mark_region. repeat (case_decide; [done|]).
  cbn [with_current current_changeset tile_changeset].
  unfold TileChangeset.is_chunk_dirty.
  apply mark_chunks_dirty_flags. by right.
Qed.

Lemma commit_keeps_pending r from_changeset cx cy :
  history_ids_ok r → from_changeset ≤ last_changeset_id r →
  pending_or_dirty_since r from_changeset cx cy →
  dirty_since (commit_current_changeset r) from_changeset cx cy.
Proof.
  unfold history_ids_ok. intros Hids Hle [Hpending|(i & cs & Hi & Hge & Hd)].
  - exists (length (history r)), (current_changeset r). simpl.
    split; [by rewrite lookup_app_r, Nat.sub_diag|]. split; [lia | done].
  - exists i, cs. simpl. split; [|done].
    rewrite lookup_app_l; [done|]. by apply lookup_lt_Some in Hi.
Qed.

Lemma apply_op_keeps_pending r op from_changeset cx cy :
  history_ids_ok r → from_changeset ≤ last_changeset_id r → op_keeps_history op →
  pending_or_dirty_since r from_changeset cx cy →
  pending_or_dirty_since (apply_op r op) from_changeset cx cy
  ∧ first_changeset_id (apply_op r op) = first_changeset_id r
  ∧ image_width (apply_op r op) = image_width r
  ∧ image_height (apply_op r op) = image_height r.
Proof.
  intros Hids Hle Hop Hp. destruct op; simpl in *; try done.
  - destruct (mark_region_ids r updated_region) as (Hf & _ & Hh & Hw & Hht).
    split; [|done]. destruct Hp as [Hp|(i & cs & Hi & Hge & Hd)].
    + left. by apply mark_region_keeps_dirty.
    + right. exists i, cs. by rewrite Hh, Hf.
  - split; [|done]. right. by apply commit_keeps_pending.
  - unfold ensure_empty_changeset. destruct (negb _); [done|].
    split; [|done]. right. by apply commit_keeps_pending.
Qed.

Lemma op_keeps_history_ok op : op_keeps_history op → op_ok op.
Proof. by destruct op. Qed.

Lemma apply_ops_keep_pending ops r from_changeset cx cy :
  register_wf r → from_changeset ≤ last_changeset_id r →
  Forall op_keeps_history ops →
  pending_or_dirty_since r from_changeset cx cy →
  register_wf (apply_ops r ops)
  ∧ pending_or_dirty_since (apply_ops r ops) from_changeset cx cy
  ∧ first_changeset_id (apply_ops r ops) = first_changeset_id r
  ∧ from_changeset ≤ last_changeset_id (apply_ops r ops)
  ∧ image_width (apply_ops r ops) = image_width r
  ∧ image_height (apply_ops r ops) = image_height r.
Proof.
  intros Hwf Hle Hops. revert r Hwf Hle.
  induction Hops as [|op ops Hop _ IH]; intros r Hwf Hle Hp; [done|].
  destruct (apply_op_keeps_pending r op from_changeset cx cy (reg_ids _ Hwf) Hle Hop Hp)
    as (Hp' & Hf & Hw & Hh).
  destruct (apply_op_ids_step r op (reg_ids _ Hwf)) as (_ & _ & Hlast).
  destruct (IH (apply_op r op)) as (Hwf'' & Hp'' & Hf'' & Hle'' & Hw'' & Hh'').
  { apply apply_op_wf; [by apply op_keeps_history_ok | done]. }
  { lia. }
  { done. }
  unfold apply_ops in *. simpl.
  split; [done|]. split; [done|]. split; [by rewrite Hf''|]. split; [done|].
  split; [by rewrite Hw'' | by rewrite Hh''].
Qed.

(** X14.  No change is lost to a slow cursor.  Take a well-formed register,
    a cursor within its retained history, and a grid chunk that is dirty in
    the current changeset or in a changeset committed since the cursor's
    id.  After any further marks and commits (no full update, no
    resolution change), and however many other cursors collected in the
    meantime, the cursor's next collection answers CHANGES_AVAILABLE and
    returns the rectangle of that chunk for every tile. *)
Theorem X14_pending_changes_reach_a_slow_cursor
    (image : Image) (user : PartialUpdateUserImpl) (r : PartialUpdateRegisterImpl)
    (ops : list RegisterOp) (tile : ImageTile.t) (cx cy : Z) :
  register_wf r →
  first_changeset_id r ≤ user_last_changeset_id user ≤ last_changeset_id r →
  on_register_grid r cx cy →
  pending_or_dirty_since r (user_last_changeset_id user) cx cy →
  Forall op_keeps_history ops →
  partial_update_register image = Some (apply_ops r ops) →
  tile ∈ tiles image →
  collect_result image user = PARTIAL_UPDATE_CHANGES_AVAILABLE
  ∧ chunk_region (ImageTile.tile_number tile) cx cy
    ∈ updated_regions (collect_user image user).
Proof.
  intros Hwf [Hfirst Hlast] Hgrid Hp Hops Hreg Htile.
  destruct (apply_ops_keep_pending ops r _ cx cy Hwf Hlast Hops Hp)
    as (Hwf' & Hp' & Hf' & Hle' & Hw' & Hh').
  set (r' := apply_ops r ops) in *.
  destruct (apply_op_keeps_pending r' OpEnsureEmptyChangeset _ cx cy
              (reg_ids _ Hwf') Hle' I Hp') as (Hpc & Hfc & Hwc & Hhc).
  cbn [apply_op] in *.
  set (committed := ensure_empty_changeset r') in *.
  assert (register_wf committed) as Hcw by by apply ensure_empty_changeset_wf.
  assert (dirty_since committed (user_last_changeset_id user) cx cy) as Hd.
  { destruct Hpc as [Hcur|Hd]; [|done]. exfalso.
    destruct (reg_current _ Hcw) as [Htc _].
    unfold TileChangeset.is_chunk_dirty in Hcur.
    rewrite (wf_summary _ Htc) in Hcur; [done|].
    apply ensure_empty_changeset_clean. }
  assert (user_last_changeset_id user < last_changeset_id committed) as Hlt.
  { destruct Hd as (i & cs & Hi & Hge & _). apply lookup_lt_Some in Hi.
    pose proof (reg_ids _ Hcw) as Hids. unfold history_ids_ok in Hids. lia. }
  unfold collect_result, collect_user.
  rewrite (collect_changes_unfold _ _ _ Hreg). cbn zeta. fold r' committed.
  rewrite !decide_False by lia. split; [done|]. simpl.
  apply elem_of_collected_regions; [done | lia |].
  exists tile, cx, cy. split; [done|]. split; [|done].
  unfold on_register_grid in *. by rewrite Hwc, Hhc, Hw', Hh'.
Qed.

Lemma X14_pending_changes_witness :
  collect_result
    (Build_Image [ImageTile.Build_t 1001]
       (Some (apply_ops example_register
                [OpEnsureEmptyChangeset; OpMarkRegion (Build_rcti 300 400 300 400);
                 OpCommitCurrentChangeset])))
    example_user
  = PARTIAL_UPDATE_CHANGES_AVAILABLE
  ∧ chunk_region (ImageTile.tile_number (ImageTile.Build_t 1001)) 1 0
    ∈ updated_regions
        (collect_user
           (Build_Image [ImageTile.Build_t 1001]
              (Some (apply_ops example_register
                       [OpEnsureEmptyChangeset; OpMarkRegion (Build_rcti 300 400 300 400);
                        OpCommitCurrentChangeset])))
           example_user).
Proof.
  apply (X14_pending_changes_reach_a_slow_cursor
           (Build_Image [ImageTile.Build_t 1001]
              (Some (apply_ops example_register
                       [OpEnsureEmptyChangeset; OpMarkRegion (Build_rcti 300 400 300 400);
                        OpCommitCurrentChangeset])))
           example_user example_register
           [OpEnsureEmptyChangeset; OpMarkRegion (Build_rcti 300 400 300 400);
            OpCommitCurrentChangeset]
           (ImageTile.Build_t 1001) 1 0).
  - exact example_register_wf.
  - vm_compute. split; discriminate.
  - vm_compute. repeat split; discriminate.
  - left. reflexivity.
  - repeat constructor.
  - reflexivity.
  - left.
Defined.

(** ** Draining the cursor *)

(** The consumer loop of the usage note at the head of the file:
    [while (BKE_image_partial_update_get_next_change(user, &change) ==
    PARTIAL_UPDATE_ITER_CHANGE_AVAILABLE) { ... }], collecting the changes
    it visits.  [fuel] bounds the number of iterations. *)
Fixpoint drain_changes (fuel : nat) (user_impl : PartialUpdateUserImpl)
  : list PartialUpdateRegion * PartialUpdateUserImpl :=
  match fuel with
  | O => ([], user_impl)
  | S fuel =>
      match BKE_image_partial_update_get_next_change user_impl with
      | (PARTIAL_UPDATE_ITER_CHANGE_AVAILABLE, Some change, user_impl) =>
          let '(changes, user_impl) := drain_changes fuel user_impl in
          (change :: changes, user_impl)
      | (_, _, user_impl) => ([], user_impl)
      end
  end.

(** X15.  Draining a cursor terminates after exactly as many changes as the
    buffer holds: with that much fuel or more the loop visits every pending
    rectangle once, last in first out, leaves the buffer empty and the id
    untouched, and the next call answers FINISHED. *)
Theorem X15_drain_visits_every_region_once
    (fuel : nat) (user : PartialUpdateUserImpl) :
  (length (updated_regions user) ≤ fuel)%nat →
  drain_changes fuel user
  = (reverse (updated_regions user),
     Build_PartialUpdateUserImpl (user_last_changeset_id user) [])
  ∧ BKE_image_partial_update_get_next_change (drain_changes fuel user).2
    = (PARTIAL_UPDATE_ITER_FINISHED, None, (drain_changes fuel user).2).
Proof.
  intros Hfuel.
  assert (drain_changes fuel user
          = (reverse (updated_regions user),
             Build_PartialUpdateUserImpl (user_last_changeset_id user) [])) as Hdrain.
  { destruct user as [id regions]. simpl in *. revert fuel Hfuel.
    induction regions as [|reg regions IH] using rev_ind; intros fuel Hfuel.
    - destruct fuel; done.
    - rewrite length_app in Hfuel. simpl in Hfuel.
      destruct fuel as [|fuel]; [lia|].
      cbn [drain_changes]. rewrite get_next_change_snoc.
      rewrite IH by lia. by rewrite reverse_snoc. }
  split; [done|]. by rewrite Hdrain.
Qed.

Lemma X15_drain_witness :
  drain_changes 5 (collect_user example_image example_user)
  = (reverse (updated_regions (collect_user example_image example_user)),
     Build_PartialUpdateUserImpl
       (user_last_changeset_id (collect_user example_image example_user)) [])
  ∧ BKE_image_partial_update_get_next_change
      (drain_changes 5 (collect_user example_image example_user)).2
    = (PARTIAL_UPDATE_ITER_FINISHED, None,
       (drain_changes 5 (collect_user example_image example_user)).2).
Proof.
  apply (X15_drain_visits_every_region_once 5 (collect_user example_image example_user)).
  vm_compute. lia.
Defined.

(** ** Invariants of a session *)

(** X16.  Whatever sequence of API calls (marking regions with buffers of
    non-negative size, marking full updates, collecting) is run on a new
    image with a new cursor, the register stays well formed: its flag
    vectors have one entry per chunk of the grid of the cached size, every
    history entry has that grid, [last_changeset_id - first_changeset_id]
    is the history length, ids are not negative; and the cursor is never
    ahead of the register. *)
Theorem X16_sessions_keep_the_register_well_formed
    (tl : list ImageTile.t) (calls : list ApiCall) :
  Forall api_call_ok calls →
  let s := foldl api_step
             (Build_Image tl None, BKE_image_partial_update_create (Build_Image tl None))
             calls in
  register_wf (register_of s.1)
  ∧ first_changeset_id (register_of s.1) ≤ last_changeset_id (register_of s.1)
  ∧ user_last_changeset_id s.2 ≤ last_changeset_id (register_of s.1).
Proof.
  intros Hcalls. cbn zeta.
  destruct (session_ok_reachable tl calls Hcalls) as [Hwf Hle].
  fold (register_of
          (foldl api_step
             (Build_Image tl None, BKE_image_partial_update_create (Build_Image tl None))
             calls).1) in Hwf, Hle.
  split; [done|]. split; [|done].
  pose proof (reg_ids _ Hwf) as Hids. unfold history_ids_ok in Hids. lia.
Qed.

Definition example_calls : list ApiCall :=
  [ CallMarkRegion (Build_ImBuf 512 512) (Build_rcti 0 300 0 10);
    CallCollectChanges;
    CallMarkRegion (Build_ImBuf 1024 512) (Build_rcti 600 700 0 10);
    CallMarkFullUpdate;
    CallCollectChanges ].

Lemma X16_sessions_witness :
  let s := foldl api_step
             (Build_Image [ImageTile.Build_t 1001] None,
              BKE_image_partial_update_create (Build_Image [ImageTile.Build_t 1001] None))
             example_calls in
  register_wf (register_of s.1)
  ∧ first_changeset_id (register_of s.1) ≤ last_changeset_id (register_of s.1)
  ∧ user_last_changeset_id s.2 ≤ last_changeset_id (register_of s.1).
Proof.
  apply (X16_sessions_keep_the_register_well_formed [ImageTile.Build_t 1001] example_calls).
  repeat constructor; simpl; lia.
Defined.

(** ** Accesses stay in bounds *)

(** X17.  On a well-formed register no vector is indexed out of range:
    every flag [mark_region] stores lies inside the flag vector of the
    current changeset; every history entry a cursor within the retained
    history makes [changed_tile_chunks_since] merge has exactly as many
    flags as the changeset it is merged into, and the first history index
    is not negative; and every chunk the collection loop tests lies inside
    the merged flag vector. *)
Theorem X17_vector_accesses_stay_in_bounds
    (r : PartialUpdateRegisterImpl) (rect : rcti) (tn : TileNumber)
    (from_changeset : ChangesetID) :
  register_wf r → first_changeset_id r ≤ from_changeset →
  let tc := tile_changeset (current_changeset r) in
  let changed := changed_tile_chunks_since r tn from_changeset in
  (∀ cx cy,
     max_ii 0 (chunk_number_for_pixel (xmin rect)) ≤ cx
       ≤ min_ii (chunk_x_len_ tc - 1) (chunk_number_for_pixel (xmax rect - 1)) →
     max_ii 0 (chunk_number_for_pixel (ymin rect)) ≤ cy
       ≤ min_ii (chunk_y_len_ tc - 1) (chunk_number_for_pixel (ymax rect - 1)) →
     0 ≤ cy * chunk_x_len_ tc + cx < Z.of_nat (length (chunk_dirty_flags_ tc)))
  ∧ 0 ≤ from_changeset - first_changeset_id r
  ∧ (∀ cs, cs ∈ history r →
       Z.of_nat (length (chunk_dirty_flags_ (tile_changeset cs)))
       = chunk_x_len_ changed * chunk_y_len_ changed)
  ∧ (∀ cx cy, cx ∈ seqZ 0 (chunk_x_len_ changed) → cy ∈ seqZ 0 (chunk_y_len_ changed) →
       0 ≤ cy * chunk_x_len_ changed + cx
         < Z.of_nat (length (chunk_dirty_flags_ changed))).
Proof.
  intros Hwf Hfrom. cbn zeta.
  destruct (changed_tile_chunks_since_spec r tn from_changeset Hwf Hfrom)
    as (Hcw & [Hgx Hgy] & _).
  split; [|split; [lia|split]].
  - intros cx cy Hx Hy. by apply (mark_region_in_bounds r rect).
  - intros cs Hin. pose proof (reg_history _ Hwf) as Hh.
    rewrite Forall_forall in Hh. destruct (Hh cs Hin) as [Hcs [Hx Hy]].
    rewrite (wf_flags_len _ Hcs). congruence.
  - intros cx cy Hx Hy. apply elem_of_seqZ in Hx, Hy.
    apply on_grid_index; [done|]. unfold on_grid. lia.
Qed.

Lemma X17_vector_accesses_witness :
  let tc := tile_changeset (current_changeset example_register) in
  let changed := changed_tile_chunks_since example_register 1001 0 in
  (∀ cx cy,
     max_ii 0 (chunk_number_for_pixel (xmin scenario_rect)) ≤ cx
       ≤ min_ii (chunk_x_len_ tc - 1) (chunk_number_for_pixel (xmax scenario_rect - 1)) →
     max_ii 0 (chunk_number_for_pixel (ymin scenario_rect)) ≤ cy
       ≤ min_ii (chunk_y_len_ tc - 1) (chunk_number_for_pixel (ymax scenario_rect - 1)) →
     0 ≤ cy * chunk_x_len_ tc + cx < Z.of_nat (length (chunk_dirty_flags_ tc)))
  ∧ 0 ≤ 0 - first_changeset_id example_register
  ∧ (∀ cs, cs ∈ history example_register →
       Z.of_nat (length (chunk_dirty_flags_ (tile_changeset cs)))
       = chunk_x_len_ changed * chunk_y_len_ changed)
  ∧ (∀ cx cy, cx ∈ seqZ 0 (chunk_x_len_ changed) → cy ∈ seqZ 0 (chunk_y_len_ changed) →
       0 ≤ cy * chunk_x_len_ changed + cx
         < Z.of_nat (length (chunk_dirty_flags_ changed))).
Proof.
  apply (X17_vector_accesses_stay_in_bounds example_register scenario_rect 1001 0).
  - exact example_register_wf.
  - vm_compute. discriminate.
Defined.

(** * The texture-paint producer (sculpt_texture_paint_intern.hh)

    The pixels of a PBVH node that texture painting edits, and
    [NodeData::flush], which writes the edited pixels to the image buffer
    before the node's dirty region is handed to
    [BKE_image_partial_update_mark_region].

    Floats are only stored and copied by this code: [F] stands for [float].
    Indices of type [uint64_t] are natural numbers.  [operator[]] is
    unchecked in the source; an access past the end gives [None] here (for
    the dirty flags: [false], and a store does nothing). *)

Module TexturePaint.

Section texture_paint.

Context {F : Type}.

Definition int2 : Type := Z * Z.
Definition int3 : Type := Z * Z * Z.
Definition float3 : Type := F * F * F.
Definition float4 : Type := F * F * F * F.

(** [copy_v4_v4(&rect_float[offset], color)] of blenlib's math_vector is
    declared outside this file; it is a parameter: the float array after the
    colour has been stored at [offset]. *)
Variable copy_v4_v4 : list F → Z → float4 → list F.

Record PixelData : Type := Build_PixelData {
  pixel_pos : int2;
  local_pos : float3;
  pd_weights : float3;
  pd_vertices : int3;
  content : float4;
}.

Record Pixels : Type := Build_Pixels {
  image_coordinates : list int2;
  local_positions : list float3;
  vertices : list int3;
  weights : list float3;
  colors : list float4;
  dirty : list bool;
}.

Definition size (self : Pixels) : nat := length (image_coordinates self).

Definition is_dirty (self : Pixels) (index : nat) : bool :=
  default false (dirty self !! index).

Definition image_coord (self : Pixels) (index : nat) : option int2 :=
  image_coordinates self !! index.

Definition local_position (self : Pixels) (index : nat) : option float3 :=
  local_positions self !! index.

Definition color (self : Pixels) (index : nat) : option float4 :=
  colors self !! index.

Definition clear_dirty (self : Pixels) : Pixels :=
  Build_Pixels (image_coordinates self) (local_positions self) (vertices self)
    (weights self) (colors self) (replicate (size self) false).

Definition mark_dirty (self : Pixels) (index : nat) : Pixels :=
  Build_Pixels (image_coordinates self) (local_positions self) (vertices self)
    (weights self) (colors self) (<[index := true]> (dirty self)).

Definition append (self : Pixels) (pixel : PixelData) : Pixels :=
  Build_Pixels
    (image_coordinates self ++ [pixel_pos pixel])
    (local_positions self ++ [local_pos pixel])
    (vertices self ++ [pd_vertices pixel])
    (weights self ++ [pd_weights pixel])
    (colors self ++ [content pixel])
    (dirty self ++ [false]).

(** The members of [NodeData] that [flush] reads and writes; the UV region,
    the triangles and the encoded pixels are not touched by it. *)
Record NodeData : Type := Build_NodeData {
  flags_dirty : bool;
  pixels : Pixels;
  dirty_region : rcti;
}.

(** [flush]: the [rect_float] array of the image buffer is passed and
    returned beside the [ImBuf] that gives the row length. *)
Definition flush (self : NodeData) (image_buffer : ImBuf) (rect_float : list F)
  : NodeData * list F :=
  let rect_float :=
    foldl (fun rect_float i =>
             if is_dirty (pixels self) i then
               match image_coord (pixels self) i, color (pixels self) i with
               | Some image_coord, Some color =>
                   let pixel_offset := image_coord.2 * x image_buffer + image_coord.1 in
                   copy_v4_v4 rect_float (pixel_offset * 4) color
               | _, _ => rect_float
               end
             else rect_float)
          rect_float (seq 0 (size (pixels self))) in
  (Build_NodeData false (clear_dirty (pixels self)) (dirty_region self), rect_float).

(** The six vectors of [Pixels] describe the same pixels. *)
Definition pixels_consistent (p : Pixels) : Prop :=
  length (local_positions p) = size p
  ∧ length (vertices p) = size p
  ∧ length (weights p) = size p
  ∧ length (colors p) = size p
  ∧ length (dirty p) = size p.

(** X18.  [Pixels::append] keeps the six vectors in step and adds one clean
    pixel at index [size()]: its coordinate, position and colour read back
    as given, and the pixels stored before read back unchanged. *)
Theorem X18_append_adds_one_clean_pixel (p : Pixels) (pixel : PixelData) :
  pixels_consistent p →
  pixels_consistent (append p pixel)
  ∧ size (append p pixel) = S (size p)
  ∧ image_coord (append p pixel) (size p) = Some (pixel_pos pixel)
  ∧ local_position (append p pixel) (size p) = Some (local_pos pixel)
  ∧ color (append p pixel) (size p) = Some (content pixel)
  ∧ is_dirty (append p pixel) (size p) = false
  ∧ ∀ i, (i < size p)%nat →
      image_coord (append p pixel) i = image_coord p i
      ∧ local_position (append p pixel) i = local_position p i
      ∧ color (append p pixel) i = color p i
      ∧ is_dirty (append p pixel) i = is_dirty p i.
Proof.
  intros (Hl & Hv & Hw & Hc & Hd).
  unfold pixels_consistent, size, image_coord, local_position, color, is_dirty in *.
  cbn [append image_coordinates local_positions vertices weights colors dirty].
  rewrite !length_app. cbn [length].
  split; [repeat split; lia|]. split; [lia|].
  split; [by apply list_lookup_middle|].
  split; [by apply list_lookup_middle|].
  split; [by apply list_lookup_middle|].
  split; [by rewrite list_lookup_middle|].
  intros i Hi. rewrite !lookup_app_l by lia. done.
Qed.

(** X19.  [NodeData::flush] leaves the node clean: the node flag is off, no
    pixel is dirty, the dirty vector has one entry per pixel, and the pixel
    data is as before.  A flush of a node without dirty pixels leaves the
    image buffer as it is, so flushing twice in a row equals flushing once. *)
Theorem X19_flush_cleans_the_node_and_is_idempotent
    (node : NodeData) (image_buffer : ImBuf) (rect_float : list F) :
  let flushed := flush node image_buffer rect_float in
  flags_dirty flushed.1 = false
  ∧ (∀ i, is_dirty (pixels flushed.1) i = false)
  ∧ length (dirty (pixels flushed.1)) = size (pixels node)
  ∧ image_coordinates (pixels flushed.1) = image_coordinates (pixels node)
  ∧ colors (pixels flushed.1) = colors (pixels node)
  ∧ ((∀ i, is_dirty (pixels node) i = false) → flushed.2 = rect_float)
  ∧ flush flushed.1 image_buffer flushed.2 = flushed.
Proof.
  cbn zeta.
  assert (∀ p i, is_dirty (clear_dirty p) i = false) as Hclean.
  { intros p i. unfold is_dirty, clear_dirty. cbn [dirty].
    destruct (replicate _ _ !! i) as [b|] eqn:Hl; [|done].
    by apply lookup_replicate_1 in Hl as [-> _]. }
  assert (∀ (p : Pixels) (l : list nat) (buf : list F),
            (∀ i, is_dirty p i = false) →
            foldl (fun rect_float i =>
                     if is_dirty p i then
                       match image_coord p i, color p i with
                       | Some image_coord, Some color =>
                           copy_v4_v4 rect_float
                             ((image_coord.2 * x image_buffer + image_coord.1) * 4) color
                       | _, _ => rect_float
                       end
                     else rect_float) buf l = buf) as Hnone.
  { intros p l buf Hp. apply foldl_fixed. intros i. by rewrite Hp. }
  split; [done|]. split; [apply Hclean|].
  split; [apply length_replicate|]. split; [done|]. split; [done|].
  split.
  - intros Hp. unfold flush. cbn [snd]. by apply Hnone.
  - unfold flush at 1. cbn [fst snd pixels flush dirty_region].
    rewrite Hnone by apply Hclean. unfold flush. done.
Qed.

End texture_paint.

End TexturePaint.

Definition example_pixels : TexturePaint.Pixels (F := Z) :=
  TexturePaint.Build_Pixels [(3, 4)] [(0, 0, 0)] [(1, 2, 3)] [(1, 0, 0)]
    [(10, 20, 30, 40)] [true].

Lemma X18_append_witness :
  TexturePaint.pixels_consistent
    (TexturePaint.append example_pixels
       (TexturePaint.Build_PixelData (5, 6) (0, 0, 0) (0, 1, 0) (4, 5, 6) (1, 2, 3, 4)))
  ∧ TexturePaint.size
      (TexturePaint.append example_pixels
         (TexturePaint.Build_PixelData (5, 6) (0, 0, 0) (0, 1, 0) (4, 5, 6) (1, 2, 3, 4)))
    = S (TexturePaint.size example_pixels)
  ∧ TexturePaint.image_coord
      (TexturePaint.append example_pixels
         (TexturePaint.Build_PixelData (5, 6) (0, 0, 0) (0, 1, 0) (4, 5, 6) (1, 2, 3, 4)))
      (TexturePaint.size example_pixels)
    = Some (5, 6)
  ∧ TexturePaint.local_position
      (TexturePaint.append example_pixels
         (TexturePaint.Build_PixelData (5, 6) (0, 0, 0) (0, 1, 0) (4, 5, 6) (1, 2, 3, 4)))
      (TexturePaint.size example_pixels)
    = Some (0, 0, 0)
  ∧ TexturePaint.color
      (TexturePaint.append example_pixels
         (TexturePaint.Build_PixelData (5, 6) (0, 0, 0) (0, 1, 0) (4, 5, 6) (1, 2, 3, 4)))
      (TexturePaint.size example_pixels)
    = Some (1, 2, 3, 4)
  ∧ TexturePaint.is_dirty
      (TexturePaint.append example_pixels
         (TexturePaint.Build_PixelData (5, 6) (0, 0, 0) (0, 1, 0) (4, 5, 6) (1, 2, 3, 4)))
      (TexturePaint.size example_pixels)
    = false
  ∧ ∀ i, (i < TexturePaint.size example_pixels)%nat →
      TexturePaint.image_coord
        (TexturePaint.append example_pixels
           (TexturePaint.Build_PixelData (5, 6) (0, 0, 0) (0, 1, 0) (4, 5, 6) (1, 2, 3, 4))) i
      = TexturePaint.image_coord example_pixels i
      ∧ TexturePaint.local_position
          (TexturePaint.append example_pixels
             (TexturePaint.Build_PixelData (5, 6) (0, 0, 0) (0, 1, 0) (4, 5, 6) (1, 2, 3, 4))) i
        = TexturePaint.local_position example_pixels i
      ∧ TexturePaint.color
          (TexturePaint.append example_pixels
             (TexturePaint.Build_PixelData (5, 6) (0, 0, 0) (0, 1, 0) (4, 5, 6) (1, 2, 3, 4))) i
        = TexturePaint.color example_pixels i
      ∧ TexturePaint.is_dirty
          (TexturePaint.append example_pixels
             (TexturePaint.Build_PixelData (5, 6) (0, 0, 0) (0, 1, 0) (4, 5, 6) (1, 2, 3, 4))) i
        = TexturePaint.is_dirty example_pixels i.
Proof.
  apply (TexturePaint.X18_append_adds_one_clean_pixel example_pixels
           (TexturePaint.Build_PixelData (5, 6) (0, 0, 0) (0, 1, 0) (4, 5, 6) (1, 2, 3, 4))).
  repeat split.
Defined.

(** A stand-in for [copy_v4_v4] on integer "floats": the four components
    stored at consecutive offsets. *)
Definition example_copy_v4_v4 (rect_float : list Z) (offset : Z)
    (color : TexturePaint.float4 (F := Z)) : list Z :=
  let '(c0, c1, c2, c3) := color in
  <[Z.to_nat (offset + 3) := c3]>
    (<[Z.to_nat (offset + 2) := c2]>
       (<[Z.to_nat (offset + 1) := c1]> (<[Z.to_nat offset := c0]> rect_float))).

Definition example_node : TexturePaint.NodeData (F := Z) :=
  TexturePaint.Build_NodeData true example_pixels (Build_rcti 3 3 4 4).

Lemma X19_flush_witness :
  let flushed :=
    TexturePaint.flush example_copy_v4_v4 example_node (Build_ImBuf 8 8)
      (replicate 256 0) in
  TexturePaint.flags_dirty flushed.1 = false
  ∧ (∀ i, TexturePaint.is_dirty (TexturePaint.pixels flushed.1) i = false)
  ∧ length (TexturePaint.dirty (TexturePaint.pixels flushed.1))
    = TexturePaint.size (TexturePaint.pixels example_node)
  ∧ TexturePaint.image_coordinates (TexturePaint.pixels flushed.1)
    = TexturePaint.image_coordinates (TexturePaint.pixels example_node)
  ∧ TexturePaint.colors (TexturePaint.pixels flushed.1)
    = TexturePaint.colors (TexturePaint.pixels example_node)
  ∧ ((∀ i, TexturePaint.is_dirty (TexturePaint.pixels example_node) i = false) →
     flushed.2 = replicate 256 0)
  ∧ TexturePaint.flush example_copy_v4_v4 flushed.1 (Build_ImBuf 8 8) flushed.2 = flushed.
Proof.
  exact (TexturePaint.X19_flush_cleans_the_node_and_is_idempotent
           example_copy_v4_v4 example_node (Build_ImBuf 8 8) (replicate 256 0)).
Defined.

(** * Lifetime of the register *)

(** X20.  [BKE_image_partial_update_register_free] forgets everything: the
    next collection creates a new register (ids 0, no history, size 0x0)
    and every cursor ends at id 0 with an empty buffer.  What it is told
    depends only on its old id: NEED_FULL_UPDATE for a cursor that never
    collected, NO_CHANGES for a cursor at id 0, and CHANGES_AVAILABLE with
    no rectangle for any cursor at a positive id. *)
Theorem X20_collect_after_register_free (image : Image) (user : PartialUpdateUserImpl) :
  BKE_image_partial_update_collect_changes
    (BKE_image_partial_update_register_free image) user
  = (if decide (user_last_changeset_id user < 0) then PARTIAL_UPDATE_NEED_FULL_UPDATE
     else if decide (user_last_changeset_id user = 0) then PARTIAL_UPDATE_NO_CHANGES
     else PARTIAL_UPDATE_CHANGES_AVAILABLE,
     Build_Image (tiles image) (Some PartialUpdateRegisterImpl.new),
     Build_PartialUpdateUserImpl 0 []).
Proof.
  rewrite collect_changes_any.
  rewrite (collect_changes_unfold _ _ PartialUpdateRegisterImpl.new) by done.
  cbn zeta.
  change (ensure_empty_changeset PartialUpdateRegisterImpl.new)
    with PartialUpdateRegisterImpl.new.
  cbn [PartialUpdateRegisterImpl.new first_changeset_id last_changeset_id].
  destruct (decide (user_last_changeset_id user < 0)) as [|Hge]; [done|].
  destruct (decide (user_last_changeset_id user = 0)) as [->|Hne]; [done|].
  f_equal. f_equal. apply elem_of_nil_inv. intros reg Hin.
  apply elem_of_collected_regions in Hin
    as (tile & cx & cy & _ & _ & (i & cs & Hi & _) & _);
    [|apply new_register_wf | simpl; lia].
  simpl in Hi. by rewrite lookup_nil in Hi.
Qed.

(** X21.  The resize scenario, end to end: when the history is not empty,
    marking a region with a buffer of another size and then collecting
    tells every cursor that is not ahead of the register NEED_FULL_UPDATE,
    hands it no rectangle, and moves it to the register's new last id, so
    the mark that came with the resize is not reported a second time. *)
Theorem X21_mark_at_new_size_then_collect
    (image : Image) (r : PartialUpdateRegisterImpl) (user : PartialUpdateUserImpl)
    (image_buffer : ImBuf) (rect : rcti) :
  partial_update_register image = Some r →
  history r ≠ [] →
  image_width r ≠ x image_buffer ∨ image_height r ≠ y image_buffer →
  user_last_changeset_id user ≤ last_changeset_id r →
  let marked := BKE_image_partial_update_mark_region image image_buffer rect in
  collect_result marked user = PARTIAL_UPDATE_NEED_FULL_UPDATE
  ∧ updated_regions (collect_user marked user) = []
  ∧ user_last_changeset_id (collect_user marked user)
    = last_changeset_id (register_of (collect_image marked user))
  ∧ first_changeset_id (register_of (collect_image marked user))
    = last_changeset_id r + 1
  ∧ collect_result (collect_image marked user) (collect_user marked user)
    = PARTIAL_UPDATE_NO_CHANGES.
Proof.
  intros Hreg Hh Hne Hle. cbn zeta.
  unfold BKE_image_partial_update_mark_region.
  rewrite (register_ensure_some _ _ Hreg).
  set (marked := mark_region (update_resolution r image_buffer) rect).
  assert (first_changeset_id marked = last_changeset_id r + 1
          ∧ last_changeset_id r + 1 ≤ last_changeset_id marked) as [Hf Hl].
  { destruct (mark_region_ids (update_resolution r image_buffer) rect) as (Hf & Hl & _).
    destruct (update_resolution_nonempty_history r image_buffer Hh Hne) as (Hf' & Hl' & _).
    unfold marked. rewrite Hf, Hl, Hf', Hl'. lia. }
  pose proof (ensure_empty_changeset_first marked) as Hcf.
  destruct (ensure_empty_changeset_ids_step marked) as (_ & _ & Hcl).
  unfold collect_result, collect_user, collect_image, register_of.
  rewrite (collect_changes_unfold (store_register image marked) user marked) by done.
  cbn zeta. rewrite decide_True by lia. cbn [fst snd].
  rewrite (collect_changes_unfold _ _ (ensure_empty_changeset marked)) by done.
  cbn zeta. rewrite ensure_empty_changeset_idemp.
  cbn [user_last_changeset_id].
  rewrite decide_False by lia. rewrite decide_True by done.
  repeat split; try done. simpl. lia.
Qed.

(** A register with one committed changeset. *)
Definition example_register_with_history : PartialUpdateRegisterImpl :=
  apply_ops example_register [OpEnsureEmptyChangeset].

Lemma X21_mark_at_new_size_witness :
  let image := Build_Image [ImageTile.Build_t 1001] (Some example_register_with_history) in
  let marked :=
    BKE_image_partial_update_mark_region image (Build_ImBuf 1024 512)
      (Build_rcti 600 700 0 10) in
  collect_result marked example_user = PARTIAL_UPDATE_NEED_FULL_UPDATE
  ∧ updated_regions (collect_user marked example_user) = []
  ∧ user_last_changeset_id (collect_user marked example_user)
    = last_changeset_id (register_of (collect_image marked example_user))
  ∧ first_changeset_id (register_of (collect_image marked example_user))
    = last_changeset_id example_register_with_history + 1
  ∧ collect_result (collect_image marked example_user) (collect_user marked example_user)
    = PARTIAL_UPDATE_NO_CHANGES.
Proof.
  apply (X21_mark_at_new_size_then_collect
           (Build_Image [ImageTile.Build_t 1001] (Some example_register_with_history))
           example_register_with_history example_user
           (Build_ImBuf 1024 512) (Build_rcti 600 700 0 10)).
  - reflexivity.
  - vm_compute. discriminate.
  - left. vm_compute. discriminate.
  - vm_compute. discriminate.
Defined.
